(** * DataTable.tsx: the artwork grid and its "select the first N rows" walk

    A shallow embedding of [src/components/DataTable.tsx].  The component
    keeps its React state in a handful of [useState] cells; two asynchronous
    routines talk to the remote API: [fetchArtworks] (one page for the
    paginated view) and [handleSubmit] (the walk that collects the first N
    records across pages).  Both are embedded in a small state-and-exception
    monad over a [World] that holds the React state, the console and the
    network trace. *)

From Stdlib Require Import ZArith NArith List String Ascii Bool Lia.
From Stdlib Require DecimalString DecimalZ.
Import ListNotations.
Local Open Scope Z_scope.

(** ** Data model *)

(** [interface Artwork]. *)
Record Artwork : Type := mkArtwork {
  id : Z;
  title : string;
  place_of_origin : string;
  artist_display : string;
  inscriptions : option string;
  date_start : option Z;
  date_end : option Z
}.

(** The [pagination] object of the API's JSON body. *)
Record Pagination : Type := mkPagination {
  total : Z;
  current_page : Z;
  total_pages : Z
}.

(** [response.data] as the two routines look at it: the test
    [data && data.data] either fails ([NoData]) or exposes the array
    [data.data] together with a possibly absent [data.pagination]. *)
Inductive Payload : Type :=
| NoData
| Data (items : list Artwork) (pagination : option Pagination).

(** What [await axios.get(url)] does: it throws, or it yields a response. *)
Inductive Reply : Type :=
| Rejected
| Fulfilled (data : Payload).

(** A JavaScript string is a sequence of UTF-16 code units. *)
Definition JSString : Type := list N.

Definition units (s : string) : JSString :=
  map N_of_ascii (list_ascii_of_string s).

(** A JavaScript number as [parseInt] produces it: [NaN] or an integer.
    Integers are kept exact; a double is exact below 2^53, far beyond any
    array length, and rounding keeps the sign, which is all that the
    comparisons of [handleSubmit] look at above that. *)
Inductive Number : Type :=
| NaN
| Int (z : Z).

Inductive LogEntry : Type :=
| ConsoleError (msg : string)
| ConsoleWarn (msg : string).

(** The network as the component sees it: requests for a page of
    [https://api.artic.edu/api/v1/artworks?page=...] and their outcomes, in
    the order in which they happen. *)
Inductive NetEvent : Type :=
| Request (page : Z)
| Response (page : Z) (r : Reply).

(** The [useState] cells of [DataTableComponent], whether the overlay panel
    behind [overlayPanelRef] is shown, the console and the network trace. *)
Record World : Type := mkWorld {
  artworks : list Artwork;
  selectedArtworks : list Artwork;
  loading : bool;
  overlayLoading : bool;
  totalRecords : Z;
  currentPage : Z;
  inputValue : JSString;
  overlayShown : bool;
  console : list LogEntry;
  network : list NetEvent
}.

Definition initialWorld : World :=
  mkWorld [] [] false false 0 1 [] false [] [].

Definition rowsPerPage : Z := 12.

(** [DataTableStateEvent], cut down to the fields of a page event. *)
Record DataTableStateEvent : Type := mkEvent {
  first : Z;
  rows : Z;
  page : option Z
}.

(** ** Array and string primitives *)

Definition len {A : Type} (l : list A) : Z := Z.of_nat (List.length l).

(** [l.slice(0, e)]: a negative [e] counts from the end of the array. *)
Definition slice0 {A : Type} (l : list A) (e : Z) : list A :=
  if e <? 0 then firstn (Z.to_nat (Z.max (len l + e) 0)) l
  else firstn (Z.to_nat e) l.

(** White space and line terminators that [parseInt] skips. *)
Definition isWhiteSpace (u : N) : bool :=
  existsb (N.eqb u)
    [9; 10; 11; 12; 13; 32; 160; 5760; 8232; 8233; 8239; 8287; 12288; 65279]%N
  || ((8192 <=? u) && (u <=? 8202))%N.

Fixpoint trimStart (s : JSString) : JSString :=
  match s with
  | u :: rest => if isWhiteSpace u then trimStart rest else s
  | [] => []
  end.

Definition digit10 (u : N) : option Z :=
  if ((48 <=? u) && (u <=? 57))%N then Some (Z.of_N (u - 48)) else None.

(** The longest prefix of decimal digits. *)
Fixpoint digits10 (s : JSString) : list Z :=
  match s with
  | u :: rest =>
      match digit10 u with
      | Some d => d :: digits10 rest
      | None => []
      end
  | [] => []
  end.

Definition decimal (ds : list Z) : Z :=
  fold_left (fun acc d => 10 * acc + d) ds 0.

(** [parseInt(s, 10)]: skip leading white space, read an optional sign, then
    the longest run of decimal digits; whatever follows is ignored, and no
    digit at all gives [NaN]. *)
Definition parseInt (s : JSString) : Number :=
  let s1 := trimStart s in
  let '(sign, s2) :=
    match s1 with
    | 45%N :: rest => (-1, rest)
    | 43%N :: rest => (1, rest)
    | _ => (1, s1)
    end in
  match digits10 s2 with
  | [] => NaN
  | ds => Int (sign * decimal ds)
  end.

Definition isNaN (n : Number) : bool :=
  match n with NaN => true | Int _ => false end.

(** [n <= 0] on numbers: every comparison with [NaN] is false. *)
Definition leq0 (n : Number) : bool :=
  match n with NaN => false | Int z => z <=? 0 end.

(** The integer behind a number that is known not to be [NaN]. *)
Definition intOf (n : Number) : Z :=
  match n with NaN => 0 | Int z => z end.

(** ** A monad for the component's effects *)

Inductive Exn : Type :=
| AxiosError
| TypeError.

Inductive Completion (A : Type) : Type :=
| Normal (a : A)
| Throw (e : Exn).
Arguments Normal {A} a.
Arguments Throw {A} e.

(** State persists through an exception: what was set before a throw stays
    set. *)
Definition M (A : Type) : Type := World -> Completion A * World.

Definition ret {A : Type} (a : A) : M A := fun w => (Normal a, w).

Definition bind {A B : Type} (m : M A) (k : A -> M B) : M B :=
  fun w =>
    match m w with
    | (Normal a, w') => k a w'
    | (Throw e, w') => (Throw e, w')
    end.

Definition throw {A : Type} (e : Exn) : M A := fun w => (Throw e, w).

Definition try_catch {A : Type} (body : M A) (handler : Exn -> M A) : M A :=
  fun w =>
    match body w with
    | (Normal a, w') => (Normal a, w')
    | (Throw e, w') => handler e w'
    end.

(** [try { body } catch (e) { handler } finally { final }]. *)
Definition try_catch_finally (body : M unit) (handler : Exn -> M unit)
    (final : M unit) : M unit :=
  fun w =>
    let '(c, w') := try_catch body handler w in
    match final w' with
    | (Normal _, w'') => (c, w'')
    | (Throw e, w'') => (Throw e, w'')
    end.

Declare Scope js_scope.
Delimit Scope js_scope with js.
Notation "x <- m ;; k" := (bind m (fun x => k))
  (at level 61, m at next level, right associativity) : js_scope.
Notation "m ;; k" := (bind m (fun _ => k))
  (at level 61, right associativity) : js_scope.
Local Open Scope js_scope.

(** The setters that [useState] hands out, and the other effects. *)
Definition setArtworks (v : list Artwork) : M unit := fun w =>
  (Normal tt,
   mkWorld v (selectedArtworks w) (loading w) (overlayLoading w)
     (totalRecords w) (currentPage w) (inputValue w) (overlayShown w)
     (console w) (network w)).

Definition setSelectedArtworks (v : list Artwork) : M unit := fun w =>
  (Normal tt,
   mkWorld (artworks w) v (loading w) (overlayLoading w)
     (totalRecords w) (currentPage w) (inputValue w) (overlayShown w)
     (console w) (network w)).

Definition setLoading (v : bool) : M unit := fun w =>
  (Normal tt,
   mkWorld (artworks w) (selectedArtworks w) v (overlayLoading w)
     (totalRecords w) (currentPage w) (inputValue w) (overlayShown w)
     (console w) (network w)).

Definition setOverlayLoading (v : bool) : M unit := fun w =>
  (Normal tt,
   mkWorld (artworks w) (selectedArtworks w) (loading w) v
     (totalRecords w) (currentPage w) (inputValue w) (overlayShown w)
     (console w) (network w)).

Definition setTotalRecords (v : Z) : M unit := fun w =>
  (Normal tt,
   mkWorld (artworks w) (selectedArtworks w) (loading w) (overlayLoading w)
     v (currentPage w) (inputValue w) (overlayShown w)
     (console w) (network w)).

Definition setCurrentPage (v : Z) : M unit := fun w =>
  (Normal tt,
   mkWorld (artworks w) (selectedArtworks w) (loading w) (overlayLoading w)
     (totalRecords w) v (inputValue w) (overlayShown w)
     (console w) (network w)).

Definition setInputValue (v : JSString) : M unit := fun w =>
  (Normal tt,
   mkWorld (artworks w) (selectedArtworks w) (loading w) (overlayLoading w)
     (totalRecords w) (currentPage w) v (overlayShown w)
     (console w) (network w)).

(** [overlayPanelRef.current?.hide()]. *)
Definition hideOverlay : M unit := fun w =>
  (Normal tt,
   mkWorld (artworks w) (selectedArtworks w) (loading w) (overlayLoading w)
     (totalRecords w) (currentPage w) (inputValue w) false
     (console w) (network w)).

Definition log (e : LogEntry) : M unit := fun w =>
  (Normal tt,
   mkWorld (artworks w) (selectedArtworks w) (loading w) (overlayLoading w)
     (totalRecords w) (currentPage w) (inputValue w) (overlayShown w)
     (console w ++ [e]) (network w)).

Definition console_error (msg : string) : M unit := log (ConsoleError msg).
Definition console_warn (msg : string) : M unit := log (ConsoleWarn msg).

Definition emit (e : NetEvent) : M unit := fun w =>
  (Normal tt,
   mkWorld (artworks w) (selectedArtworks w) (loading w) (overlayLoading w)
     (totalRecords w) (currentPage w) (inputValue w) (overlayShown w)
     (console w) (network w ++ [e])).

(** Reading a member of [data.pagination]: a [TypeError] when the object is
    undefined. *)
Definition member {A : Type} (o : option Pagination) (f : Pagination -> A)
  : M A :=
  match o with
  | Some pg => ret (f pg)
  | None => throw TypeError
  end.

(** The two locals of [handleSubmit] that its loop updates. *)
Record Locals : Type := mkLocals {
  selectedItems : list Artwork;
  currentPageToFetch : Z
}.

(** How one turn of the [while] loop ends: it falls through to the loop test
    ([Next]) or it leaves through [break] ([Done]). *)
Inductive LoopStep : Type :=
| Next (s : Locals)
| Done (s : Locals).

Section Component.

(** The remote source: what the API answers for each page number. *)
Variable source : Z -> Reply.

(** [await axios.get(`.../artworks?page=${page}`)], then [response.data].
    The request goes out, the routine is suspended until its outcome is
    known, and only then does it go on. *)
Definition axios_get (page : Z) : M Payload :=
  emit (Request page) ;;
  emit (Response page (source page)) ;;
  match source page with
  | Rejected => throw AxiosError
  | Fulfilled data => ret data
  end.

(** ** fetchArtworks *)

Definition fetchArtworks (page : Z) : M unit :=
  setLoading true ;;
  try_catch_finally
    (data <- axios_get page ;;
     match data with
     | Data items pagination =>
         setArtworks items ;;
         t <- member pagination total ;;
         setTotalRecords t ;;
         c <- member pagination current_page ;;
         setCurrentPage c
     | NoData => ret tt
     end)
    (fun error => console_error "Error fetching artworks:")
    (setLoading false).

(** The effect run on mount. *)
Definition onMount : M unit := fun w => fetchArtworks (currentPage w) w.

(** ** onPageChange *)

Definition onPageChange (event : DataTableStateEvent) : M unit :=
  let nextPage := match page event with Some p => p | None => 0 end + 1 in
  fetchArtworks nextPage.

(** [onSelectionChange] of the table: the checkboxes. *)
Definition onSelectionChange (value : list Artwork) : M unit :=
  setSelectedArtworks value.

(** ** handleSubmit *)

(** The body of the [try] block inside the loop. *)
Definition handleSubmit_try (numberOfItems : Z) (s : Locals) : M LoopStep :=
  data <- axios_get (currentPageToFetch s) ;;
  match data with
  | Data artworksFromPage pagination =>
      let remainingItemsToSelect := numberOfItems - len (selectedItems s) in
      let uniqueItems :=
        filter
          (fun artwork =>
             negb (existsb (fun selected => id selected =? id artwork)
                     (selectedItems s)))
          artworksFromPage in
      let selectedItems' :=
        selectedItems s ++ slice0 uniqueItems remainingItemsToSelect in
      if len artworksFromPage <? remainingItemsToSelect then
        if match pagination with
           | Some pg => current_page pg <? total_pages pg
           | None => false
           end
        then ret (Next (mkLocals selectedItems' (currentPageToFetch s + 1)))
        else
          console_warn "Not enough items available to fulfill the request." ;;
          ret (Done (mkLocals selectedItems' (currentPageToFetch s)))
      else ret (Done (mkLocals selectedItems' (currentPageToFetch s)))
  | NoData =>
      console_error "No data found for the current page." ;;
      ret (Done s)
  end.

(** One turn of the loop: the [try] block and its [catch].  Nothing throws
    after the locals are assigned, so the handler sees them as they were
    when the turn began. *)
Definition iteration (numberOfItems : Z) (s : Locals) : M LoopStep :=
  try_catch (handleSubmit_try numberOfItems s)
    (fun error => console_error "Error fetching artworks:" ;; ret (Done s)).

(** [while (selectedItems.length < numberOfItems) { ... }].  The loop need
    not end; [fuel] bounds the number of turns and [None] says that it was
    used up. *)
Fixpoint while_loop (fuel : nat) (numberOfItems : Z) (s : Locals) (w : World)
  {struct fuel} : option (Completion Locals * World) :=
  if len (selectedItems s) <? numberOfItems then
    match fuel with
    | O => None
    | S fuel' =>
        match iteration numberOfItems s w with
        | (Normal (Next s'), w') => while_loop fuel' numberOfItems s' w'
        | (Normal (Done s'), w') => Some (Normal s', w')
        | (Throw e, w') => Some (Throw e, w')
        end
    end
  else Some (Normal s, w).

Definition handleSubmit (fuel : nat) (w : World)
  : option (Completion unit * World) :=
  let numberOfItems := parseInt (inputValue w) in
  if isNaN numberOfItems || leq0 numberOfItems then
    Some (console_error "Invalid input. Please enter a positive number." w)
  else
    let '(_, w1) := setOverlayLoading true w in
    match while_loop fuel (intOf numberOfItems) (mkLocals [] 1) w1 with
    | None => None
    | Some (Throw e, w2) => Some (Throw e, w2)
    | Some (Normal s, w2) =>
        Some ((setSelectedArtworks (selectedItems s) ;;
               setOverlayLoading false ;;
               hideOverlay) w2)
    end.

End Component.

(** ** Vocabulary of the properties *)

(** The React state proper, without console and network. *)
Definition ui (w : World)
  : list Artwork * list Artwork * bool * bool * Z * Z * JSString * bool :=
  (artworks w, selectedArtworks w, loading w, overlayLoading w,
   totalRecords w, currentPage w, inputValue w, overlayShown w).

(** The test of the [filter] in [handleSubmit]: no selected record has the
    id of [artwork]. *)
Definition unseen (seen : list Artwork) (artwork : Artwork) : bool :=
  negb (existsb (fun selected => id selected =? id artwork) seen).

(** First-seen order: every id once, at the place of its first occurrence. *)
Fixpoint first_seen (l : list Artwork) : list Artwork :=
  match l with
  | [] => []
  | a :: rest => a :: filter (fun b => negb (id a =? id b)) (first_seen rest)
  end.

Definition distinct_ids (l : list Artwork) : Prop := NoDup (map id l).

(** The world after the request for [p] and its outcome. *)
Definition exchanged (source : Z -> Reply) (p : Z) (w : World) : World :=
  snd (emit (Response p (source p)) (snd (emit (Request p) w))).

Definition logged (e : LogEntry) (w : World) : World := snd (log e w).

(** The network trace of fetching the given pages one after the other. *)
Definition exchanges (source : Z -> Reply) (pages : list Z) : list NetEvent :=
  flat_map (fun p => [Request p; Response p (source p)]) pages.

(** Pages 1, 2, ..., k. *)
Definition first_pages (k : nat) : list Z := map Z.of_nat (seq 1 k).

(** The world in which the loop of [handleSubmit] starts. *)
Definition entry (w : World) : World := snd (setOverlayLoading true w).

(** The locals with which a turn ends. *)
Definition locals (st : LoopStep) : Locals :=
  match st with Next s => s | Done s => s end.

(** The world after the three statements that follow the loop. *)
Definition finished (s : Locals) (w : World) : World :=
  snd ((setSelectedArtworks (selectedItems s) ;;
        setOverlayLoading false ;;
        hideOverlay) w).

(** Every record of [l] was listed by a page of the source. *)
Definition all_fetched (source : Z -> Reply) (l : list Artwork) : Prop :=
  forall a, In a l ->
    exists p items pagination,
      source p = Fulfilled (Data items pagination) /\ In a items.

(** The input passes the validation of [handleSubmit] and asks for [n]. *)
Definition asks_for (w : World) (n : Z) : Prop :=
  parseInt (inputValue w) = Int n /\ 0 < n.

(** The states in which the loop test of [handleSubmit] is evaluated,
    starting in world [w0]. *)
Inductive reaches (source : Z -> Reply) (n : Z) (w0 : World)
  : Locals -> World -> Prop :=
| reaches_start : reaches source n w0 (mkLocals [] 1) w0
| reaches_next s w s' w' :
    reaches source n w0 s w ->
    len (selectedItems s) < n ->
    iteration source n s w = (Normal (Next s'), w') ->
    reaches source n w0 s' w'.

(** A fetch that fails: the request is rejected, or the payload lacks its
    data field. *)
Definition failed (r : Reply) : bool :=
  match r with
  | Rejected => true
  | Fulfilled NoData => true
  | Fulfilled (Data _ _) => false
  end.

Definition more_pages (pagination : option Pagination) : bool :=
  match pagination with
  | Some pg => current_page pg <? total_pages pg
  | None => false
  end.

(** The source answers pages [p], [p+1], ... with the given item lists, and
    every page but the last one reports that more pages follow. *)
Fixpoint serves (source : Z -> Reply) (p : Z) (pages : list (list Artwork))
  : Prop :=
  match pages with
  | [] => True
  | items :: rest =>
      (exists pagination,
         source p = Fulfilled (Data items pagination) /\
         (rest <> [] -> more_pages pagination = true)) /\
      serves source (p + 1) rest
  end.

(** Every page before the last has fewer items than were still needed when
    it arrived. *)
Definition short_before_last (n : Z) (pages : list (list Artwork)) : Prop :=
  forall (i : nat) (items : list Artwork),
    (i + 1 < List.length pages)%nat ->
    nth_error pages i = Some items ->
    len items < n - len (first_seen (List.concat (firstn i pages))).

(** A decimal integer literal: an optional sign and then digits only. *)
Definition numeric (s : JSString) : bool :=
  let body :=
    match s with
    | 45%N :: rest => rest
    | 43%N :: rest => rest
    | _ => s
    end in
  negb (Nat.eqb (List.length body) 0) &&
  forallb (fun u => match digit10 u with Some _ => true | None => false end)
    body.

(** The source holds at least [n] distinct records on pages that sequential
    paging from page 1 gets to. *)
Definition enough_unique_records (source : Z -> Reply) (n : Z) : Prop :=
  exists pages,
    pages <> [] /\
    serves source 1 pages /\
    n <= len (first_seen (List.concat pages)).

(** [handleSubmit] returns with exactly [n] records, no id twice. *)
Definition returns_exactly (source : Z -> Reply) (w : World) (n : Z) : Prop :=
  exists fuel w',
    handleSubmit source fuel w = Some (Normal tt, w') /\
    len (selectedArtworks w') = n /\
    distinct_ids (selectedArtworks w').

(** ** Scenarios *)

Definition art (i : Z) : Artwork := mkArtwork i "" "" "" None None None.

Definition arts (from : nat) (count : nat) : list Artwork :=
  map (fun k => art (Z.of_nat k)) (seq from count).

Definition withInput (s : string) : World :=
  mkWorld [] [] false false 0 1 (units s) true [] [].

(** Pages of twelve records, none shared, three pages in all. *)
Definition gallery (p : Z) : Reply :=
  if (1 <=? p) && (p <=? 3) then
    Fulfilled
      (Data (arts (Z.to_nat (12 * (p - 1) + 1)) 12)
         (Some (mkPagination 36 p 3)))
  else Rejected.

(** Three pages of two records; page 2 repeats a record of page 1. *)
Definition overlapping (p : Z) : Reply :=
  if p =? 1 then Fulfilled (Data [art 1; art 2] (Some (mkPagination 6 1 3)))
  else if p =? 2 then
    Fulfilled (Data [art 2; art 3] (Some (mkPagination 6 2 3)))
  else if p =? 3 then
    Fulfilled (Data [art 4; art 5] (Some (mkPagination 6 3 3)))
  else Rejected.

(** A single page that lists one record twice. *)
Definition repeating (p : Z) : Reply :=
  if p =? 1 then Fulfilled (Data [art 1; art 1] (Some (mkPagination 2 1 1)))
  else Rejected.

(** Page 1 is fine, page 2 is rejected. *)
Definition flaky (p : Z) : Reply :=
  if p =? 1 then Fulfilled (Data [art 1; art 2] (Some (mkPagination 6 1 3)))
  else Rejected.

(** Page 1 is fine, the payload of page 2 has no data field. *)
Definition hollow (p : Z) : Reply :=
  if p =? 1 then Fulfilled (Data [art 1; art 2] (Some (mkPagination 6 1 3)))
  else Fulfilled NoData.

(** A world with rows on display and two of them ticked. *)
Definition browsing : World :=
  mkWorld [art 1; art 2; art 3] [art 1; art 3] false false 36 1
    (units "2") true [] [].

(** ** The render *)

(** [String(n)] for an integer: decimal digits, a minus sign when negative. *)
Definition numberToString (z : Z) : string :=
  DecimalString.NilEmpty.string_of_int (Z.to_int z).

(** [array.map((x, index) => f(x, index))]. *)
Fixpoint map_from {A B : Type} (f : A -> nat -> B) (index : nat) (l : list A)
  : list B :=
  match l with
  | [] => []
  | x :: rest => f x index :: map_from f (S index) rest
  end.

Definition map_with_index {A B : Type} (f : A -> nat -> B) (l : list A)
  : list B :=
  map_from f O l.

Module Table.

(** The props of [DataTable] that depend on the state. *)
Record Props : Type := mkProps {
  value : list Artwork;
  rows : Z;
  totalRecords : Z;
  first : Z;
  selection : list Artwork
}.

End Table.

(** What the overlay panel holds: the spinner, or the input and the button. *)
Inductive OverlayContent : Type :=
| OverlaySpinner
| OverlayForm (value : JSString).

(** An item of the list of selected artworks: its React key and its text. *)
Record ListItem : Type := mkListItem {
  key : string;
  text : string
}.

(** The parts of the rendered tree that depend on the state. *)
Record Rendered : Type := mkRendered {
  pageSpinner : bool;
  table : Table.Props;
  overlayContent : OverlayContent;
  selectedList : option (list ListItem)
}.

Definition render (w : World) : Rendered :=
  mkRendered
    (loading w)
    (Table.mkProps (artworks w) rowsPerPage (totalRecords w)
       ((currentPage w - 1) * rowsPerPage) (selectedArtworks w))
    (if overlayLoading w then OverlaySpinner else OverlayForm (inputValue w))
    (if 0 <? len (selectedArtworks w) then
       Some
         (map_with_index
            (fun artwork index =>
               mkListItem
                 (numberToString (id artwork) ++ "-"
                  ++ numberToString (Z.of_nat index))
                 (title artwork))
            (selectedArtworks w))
     else None).

(** ** More vocabulary *)

(** The items of a page as the walk sees them: a failed fetch has none. *)
Definition page_items (r : Reply) : list Artwork :=
  match r with
  | Fulfilled (Data items _) => items
  | _ => []
  end.

(** The item lists of pages 1, ..., k. *)
Definition fetched_pages (source : Z -> Reply) (k : nat)
  : list (list Artwork) :=
  map (fun p => page_items (source p)) (first_pages k).

(** Every page of the source lists each id at most once. *)
Definition pages_distinct (source : Z -> Reply) : Prop :=
  forall p items pagination,
    source p = Fulfilled (Data items pagination) -> distinct_ids items.

(** Every one of the pages has fewer items than were still needed when it
    arrived. *)
Definition all_short (n : Z) (pages : list (list Artwork)) : Prop :=
  forall (i : nat) (items : list Artwork),
    nth_error pages i = Some items ->
    len items < n - len (first_seen (List.concat (firstn i pages))).

(** A source whose page 1 has rows but no pagination. *)
Definition unpaged (p : Z) : Reply :=
  if p =? 1 then Fulfilled (Data [art 7; art 8] None) else Rejected.

(** * Properties *)

Ltac unfold_js :=
  cbv beta delta
    [iteration handleSubmit_try fetchArtworks onPageChange onMount
     try_catch try_catch_finally bind ret throw axios_get member
     console_error console_warn].

(** ** Arrays: [slice], [filter] and ids *)

Lemma slice0_nonneg {A : Type} (l : list A) (e : Z) :
  0 <= e -> slice0 l e = firstn (Z.to_nat e) l.
Proof.
  intros He. unfold slice0.
  destruct (Z.ltb_spec e 0) as [Hneg|_]; [lia|reflexivity].
Qed.

Lemma slice0_prefix {A : Type} (l : list A) (e : Z) :
  exists k, slice0 l e = firstn k l.
Proof.
  unfold slice0. destruct (e <? 0); eexists; reflexivity.
Qed.

Lemma slice0_all {A : Type} (l : list A) (e : Z) :
  len l <= e -> slice0 l e = l.
Proof.
  intros Hle. unfold len in Hle. rewrite slice0_nonneg by lia.
  apply firstn_all2. lia.
Qed.

Lemma len_slice0_le {A : Type} (l : list A) (e : Z) :
  len (slice0 l e) <= len l.
Proof.
  destruct (slice0_prefix l e) as [k ->].
  unfold len. rewrite length_firstn. lia.
Qed.

Lemma in_slice0 {A : Type} (l : list A) (e : Z) (x : A) :
  In x (slice0 l e) -> In x l.
Proof.
  destruct (slice0_prefix l e) as [k ->].
  revert l. induction k as [|k IH]; intros [|a l]; simpl; try tauto.
  intros [Heq|Hin]; [now left|right; now apply IH].
Qed.

Lemma len_app {A : Type} (l l' : list A) : len (l ++ l') = len l + len l'.
Proof. unfold len. rewrite length_app. lia. Qed.

Lemma len_snoc {A : Type} (l : list A) (x : A) : len (l ++ [x]) = len l + 1.
Proof. rewrite len_app. reflexivity. Qed.

Lemma len_filter_le {A : Type} (f : A -> bool) (l : list A) :
  len (filter f l) <= len l.
Proof.
  unfold len. induction l as [|a l IH]; simpl; [lia|].
  destruct (f a); simpl; lia.
Qed.

Lemma filter_keeps_all {A : Type} (f : A -> bool) (l : list A) :
  (forall x, In x l -> f x = true) -> filter f l = l.
Proof.
  induction l as [|a l IH]; intros Hall; simpl; [reflexivity|].
  rewrite (Hall a (or_introl eq_refl)).
  f_equal. apply IH. intros x Hx. apply Hall. now right.
Qed.

Lemma unseen_true_iff (seen : list Artwork) (a : Artwork) :
  unseen seen a = true <-> ~ In (id a) (map id seen).
Proof.
  unfold unseen. rewrite negb_true_iff, <- not_true_iff_false.
  rewrite existsb_exists, in_map_iff.
  split; intros Hno [x Hx]; apply Hno; exists x.
  - destruct Hx as [Heq Hin]. split; [assumption|]. now apply Z.eqb_eq.
  - destruct Hx as [Hin Heq]. split; [|assumption]. now apply Z.eqb_eq.
Qed.

Lemma in_ids_filter (f : Artwork -> bool) (l : list Artwork) (i : Z) :
  In i (map id (filter f l)) -> In i (map id l).
Proof.
  rewrite !in_map_iff. intros [x [Hid Hin]]. exists x.
  split; [assumption|]. now apply filter_In in Hin.
Qed.

Lemma in_ids_firstn (k : nat) (l : list Artwork) (i : Z) :
  In i (map id (firstn k l)) -> In i (map id l).
Proof.
  revert l. induction k as [|k IH]; intros [|a l]; simpl; try tauto.
  intros [Heq|Hin]; [now left|right; now apply IH].
Qed.

Lemma distinct_filter (f : Artwork -> bool) (l : list Artwork) :
  distinct_ids l -> distinct_ids (filter f l).
Proof.
  unfold distinct_ids. induction l as [|a l IH]; simpl; intros Hnd.
  - constructor.
  - inversion Hnd as [|x xs Hnotin Hrest]; subst.
    destruct (f a); simpl; [|now apply IH].
    constructor; [|now apply IH].
    intros Hin. apply Hnotin. eapply in_ids_filter; eassumption.
Qed.

Lemma distinct_firstn (k : nat) (l : list Artwork) :
  distinct_ids l -> distinct_ids (firstn k l).
Proof.
  unfold distinct_ids. revert l.
  induction k as [|k IH]; intros [|a l] Hnd; simpl; try constructor.
  - inversion Hnd; subst. intros Hin. eapply in_ids_firstn in Hin. tauto.
  - inversion Hnd; subst. now apply IH.
Qed.

(** What a turn appends never repeats an id, neither within itself nor
    against what was selected before. *)
Lemma collect_distinct (acc items : list Artwork) (e : Z) :
  distinct_ids acc -> distinct_ids items ->
  distinct_ids (acc ++ slice0 (filter (unseen acc) items) e).
Proof.
  intros Hacc Hitems. destruct (slice0_prefix (filter (unseen acc) items) e)
    as [k ->].
  unfold distinct_ids. rewrite map_app. apply NoDup_app.
  - exact Hacc.
  - apply distinct_firstn, distinct_filter, Hitems.
  - intros i Hin Hin'. apply in_ids_firstn in Hin'.
    apply in_map_iff in Hin'. destruct Hin' as [x [Hid Hx]].
    apply filter_In in Hx. destruct Hx as [_ Hfresh].
    apply unseen_true_iff in Hfresh. subst i. contradiction.
Qed.

(** ** First-seen order *)

Lemma existsb_filter_other (a b : Artwork) (l : list Artwork) :
  id a <> id b ->
  existsb (fun c => id c =? id b) (filter (fun c => negb (id a =? id c)) l)
  = existsb (fun c => id c =? id b) l.
Proof.
  intros Hne. induction l as [|c l IH]; simpl; [reflexivity|].
  destruct (Z.eqb_spec (id a) (id c)) as [Hac|Hac]; simpl.
  - rewrite IH. destruct (Z.eqb_spec (id c) (id b)); [congruence|reflexivity].
  - now rewrite IH.
Qed.

Lemma unseen_first_seen (l : list Artwork) (b : Artwork) :
  unseen (first_seen l) b = unseen l b.
Proof.
  unfold unseen. f_equal. induction l as [|a l IH]; simpl; [reflexivity|].
  destruct (Z.eqb_spec (id a) (id b)) as [Hab|Hab]; simpl; [reflexivity|].
  now rewrite existsb_filter_other.
Qed.

Lemma filter_unseen_first_seen (l items : list Artwork) :
  filter (unseen (first_seen l)) items = filter (unseen l) items.
Proof.
  apply filter_ext. intros b. apply unseen_first_seen.
Qed.

Lemma first_seen_distinct (l : list Artwork) : distinct_ids (first_seen l).
Proof.
  induction l as [|a l IH]; simpl.
  - constructor.
  - unfold distinct_ids. simpl. constructor.
    + rewrite in_map_iff. intros [x [Hid Hx]].
      apply filter_In in Hx. destruct Hx as [_ Hne].
      rewrite <- Hid, Z.eqb_refl in Hne. discriminate.
    + apply distinct_filter, IH.
Qed.

Lemma distinct_by_first_seen (l : list Artwork) :
  first_seen l = l -> distinct_ids l.
Proof. intros <-. apply first_seen_distinct. Qed.

Lemma first_seen_fixed (l : list Artwork) :
  distinct_ids l -> first_seen l = l.
Proof.
  unfold distinct_ids. induction l as [|a l IH]; simpl; intros Hnd.
  - reflexivity.
  - inversion Hnd as [|x xs Hnotin Hrest]; subst.
    rewrite IH by assumption. f_equal.
    apply filter_keeps_all. intros x Hx.
    apply negb_true_iff, Z.eqb_neq. intros Heq.
    apply Hnotin. rewrite Heq. now apply in_map.
Qed.

Lemma unseen_cons (a b : Artwork) (l : list Artwork) :
  unseen (a :: l) b = negb (id a =? id b) && unseen l b.
Proof. unfold unseen. simpl. apply negb_orb. Qed.

Lemma filter_unseen_cons (a : Artwork) (l x : list Artwork) :
  filter (fun b => negb (id a =? id b)) (filter (unseen l) x)
  = filter (unseen (a :: l)) x.
Proof.
  induction x as [|b x IH]; simpl; [reflexivity|].
  rewrite unseen_cons.
  destruct (unseen l b); simpl.
  - destruct (negb (id a =? id b)); simpl; now rewrite IH.
  - rewrite andb_false_r. exact IH.
Qed.

Lemma first_seen_app (l p : list Artwork) :
  first_seen (l ++ p) = first_seen l ++ filter (unseen l) (first_seen p).
Proof.
  induction l as [|a l IH]; simpl.
  - symmetry. apply filter_keeps_all. reflexivity.
  - rewrite IH, filter_app, filter_unseen_cons. reflexivity.
Qed.

(** Appending a page that lists no id twice adds its unseen records. *)
Lemma first_seen_page (l items : list Artwork) :
  distinct_ids items ->
  first_seen (l ++ items)
  = first_seen l ++ filter (unseen (first_seen l)) items.
Proof.
  intros Hd. rewrite first_seen_app, (first_seen_fixed items) by assumption.
  now rewrite filter_unseen_first_seen.
Qed.

Section Properties.

Variable source : Z -> Reply.

(** ** One turn of the loop, branch by branch *)

Lemma iteration_rejected n s w :
  source (currentPageToFetch s) = Rejected ->
  iteration source n s w =
  (Normal (Done s),
   logged (ConsoleError "Error fetching artworks:")
     (exchanged source (currentPageToFetch s) w)).
Proof.
  intros H. unfold_js. unfold exchanged. simpl. rewrite H. reflexivity.
Qed.

Lemma iteration_nodata n s w :
  source (currentPageToFetch s) = Fulfilled NoData ->
  iteration source n s w =
  (Normal (Done s),
   logged (ConsoleError "No data found for the current page.")
     (exchanged source (currentPageToFetch s) w)).
Proof.
  intros H. unfold_js. unfold exchanged. simpl. rewrite H. reflexivity.
Qed.

Lemma iteration_data n s w items pagination :
  source (currentPageToFetch s) = Fulfilled (Data items pagination) ->
  let remaining := n - len (selectedItems s) in
  let acc :=
    selectedItems s
    ++ slice0 (filter (unseen (selectedItems s)) items) remaining in
  let w1 := exchanged source (currentPageToFetch s) w in
  iteration source n s w =
  if len items <? remaining then
    if more_pages pagination then
      (Normal (Next (mkLocals acc (currentPageToFetch s + 1))), w1)
    else
      (Normal (Done (mkLocals acc (currentPageToFetch s))),
       logged
         (ConsoleWarn "Not enough items available to fulfill the request.")
         w1)
  else (Normal (Done (mkLocals acc (currentPageToFetch s))), w1).
Proof.
  intros H remaining acc w1. unfold_js. unfold w1, exchanged. simpl.
  rewrite H. simpl.
  fold remaining. destruct (len items <? remaining); [|reflexivity].
  unfold more_pages.
  destruct pagination as [pg|]; [destruct (current_page pg <? total_pages pg)|];
    reflexivity.
Qed.

(** ** Effects of a turn *)

Lemma network_exchanged p w :
  network (exchanged source p w) = network w ++ exchanges source [p].
Proof. unfold exchanged, exchanges. simpl. now rewrite <- app_assoc. Qed.

Lemma iteration_shape n s w :
  exists st w',
    iteration source n s w = (Normal st, w') /\
    ui w' = ui w /\
    network w' = network w ++ exchanges source [currentPageToFetch s] /\
    currentPageToFetch (locals st)
    = match st with
      | Next _ => currentPageToFetch s + 1
      | Done _ => currentPageToFetch s
      end.
Proof.
  destruct (source (currentPageToFetch s)) as [|[|items pagination]] eqn:Hsrc.
  - rewrite (iteration_rejected n s w Hsrc). do 2 eexists.
    split; [reflexivity|]. repeat split. apply network_exchanged.
  - rewrite (iteration_nodata n s w Hsrc). do 2 eexists.
    split; [reflexivity|]. repeat split. apply network_exchanged.
  - rewrite (iteration_data n s w items pagination Hsrc).
    destruct (len items <? n - len (selectedItems s));
      [destruct (more_pages pagination)|];
      do 2 eexists; (split; [reflexivity|]); repeat split;
      apply network_exchanged.
Qed.

(** What a turn does to the locals does not depend on the world. *)
Lemma iteration_indep n s w1 w2 :
  fst (iteration source n s w1) = fst (iteration source n s w2).
Proof.
  destruct (source (currentPageToFetch s)) as [|[|items pagination]] eqn:Hsrc.
  - now rewrite !(iteration_rejected n s _ Hsrc).
  - now rewrite !(iteration_nodata n s _ Hsrc).
  - rewrite !(iteration_data n s _ items pagination Hsrc).
    destruct (len items <? n - len (selectedItems s));
      [destruct (more_pages pagination)|]; reflexivity.
Qed.

(** ** The loop *)

Lemma while_loop_exit fuel n s w :
  n <= len (selectedItems s) ->
  while_loop source fuel n s w = Some (Normal s, w).
Proof.
  intros Hle. destruct fuel; simpl;
    destruct (Z.ltb_spec (len (selectedItems s)) n); (lia || reflexivity).
Qed.

Lemma while_loop_turn fuel n s w :
  len (selectedItems s) < n ->
  while_loop source (S fuel) n s w =
  match iteration source n s w with
  | (Normal (Next s'), w') => while_loop source fuel n s' w'
  | (Normal (Done s'), w') => Some (Normal s', w')
  | (Throw e, w') => Some (Throw e, w')
  end.
Proof.
  intros Hlt. simpl.
  destruct (Z.ltb_spec (len (selectedItems s)) n); [reflexivity|lia].
Qed.

Lemma while_loop_dry n s w :
  len (selectedItems s) < n -> while_loop source O n s w = None.
Proof.
  intros Hlt. simpl.
  destruct (Z.ltb_spec (len (selectedItems s)) n); [reflexivity|lia].
Qed.

Lemma while_loop_more_fuel fuel n s w r :
  while_loop source fuel n s w = Some r ->
  forall extra, while_loop source (fuel + extra) n s w = Some r.
Proof.
  revert s w. induction fuel as [|fuel IH]; intros s w Hrun extra.
  - destruct (Z.lt_ge_cases (len (selectedItems s)) n) as [Hlt|Hge].
    + rewrite while_loop_dry in Hrun by assumption. discriminate.
    + rewrite while_loop_exit in * by assumption. assumption.
  - destruct (Z.lt_ge_cases (len (selectedItems s)) n) as [Hlt|Hge].
    + simpl Nat.add. rewrite while_loop_turn in * by assumption.
      destruct (iteration source n s w) as [[[s'|s']|e] w'];
        [now apply IH|assumption|assumption].
    + rewrite while_loop_exit in * by assumption. assumption.
Qed.

(** The cursor counts the turns, the trace lists the pages before the
    cursor, the React state is as it was on entry, and a run of the loop
    from the start passes through the reached state. *)
Lemma reaches_trace n w0 s w :
  reaches source n w0 s w ->
  exists k,
    currentPageToFetch s = Z.of_nat (S k) /\
    network w = network w0 ++ exchanges source (first_pages k) /\
    ui w = ui w0 /\
    forall fuel,
      while_loop source (k + fuel) n (mkLocals [] 1) w0
      = while_loop source fuel n s w.
Proof.
  induction 1 as [|s w s' w' Hreach [k [Hpage [Hnet [Hui Hrun]]]] Hlt Hturn].
  - exists O. repeat split. simpl. now rewrite app_nil_r.
  - exists (S k).
    destruct (iteration_shape n s w) as [st [w1 [Heq [Hui1 [Hnet1 Hcur]]]]].
    rewrite Heq in Hturn. inversion Hturn; subst st w1. simpl in Hcur.
    split; [rewrite Hcur, Hpage; lia|].
    split; [|split; [congruence|]].
    + rewrite Hnet1, Hnet, Hpage, <- app_assoc. f_equal.
      unfold first_pages, exchanges. rewrite seq_S, map_app, flat_map_app.
      reflexivity.
    + intros fuel.
      replace (S k + fuel)%nat with (k + S fuel)%nat by lia.
      rewrite Hrun, while_loop_turn by assumption. now rewrite Heq.
Qed.

(** Where a run of the loop that returns has come from: a reached state at
    which either the loop test failed or the turn ended in [break]. *)
Lemma while_loop_returns fuel n w0 s w c w' :
  reaches source n w0 s w ->
  while_loop source fuel n s w = Some (c, w') ->
  exists s1 w1,
    reaches source n w0 s1 w1 /\
    ((n <= len (selectedItems s1) /\ c = Normal s1 /\ w' = w1) \/
     (len (selectedItems s1) < n /\
      exists s2,
        iteration source n s1 w1 = (Normal (Done s2), w') /\ c = Normal s2)).
Proof.
  revert s w. induction fuel as [|fuel IH]; intros s w Hreach Hrun.
  - destruct (Z.lt_ge_cases (len (selectedItems s)) n) as [Hlt|Hge].
    + rewrite while_loop_dry in Hrun by assumption. discriminate.
    + rewrite while_loop_exit in Hrun by assumption.
      inversion Hrun; subst. exists s, w'. split; [assumption|]. now left.
  - destruct (Z.lt_ge_cases (len (selectedItems s)) n) as [Hlt|Hge].
    + rewrite while_loop_turn in Hrun by assumption.
      destruct (iteration_shape n s w) as [st [w1 [Heq _]]].
      rewrite Heq in Hrun. destruct st as [s'|s'].
      * apply (IH s' w1); [|assumption].
        eapply reaches_next; eassumption.
      * inversion Hrun; subst. exists s, w. split; [assumption|].
        right. split; [assumption|]. exists s'. split; [assumption|].
        reflexivity.
    + rewrite while_loop_exit in Hrun by assumption.
      inversion Hrun; subst. exists s, w'. split; [assumption|]. now left.
Qed.

(** ** handleSubmit around the loop *)

Lemma asks_for_valid w n :
  asks_for w n ->
  isNaN (parseInt (inputValue w)) || leq0 (parseInt (inputValue w)) = false.
Proof.
  intros [Hparse Hpos]. rewrite Hparse. simpl. apply Z.leb_gt. assumption.
Qed.

Lemma valid_asks_for w :
  isNaN (parseInt (inputValue w)) || leq0 (parseInt (inputValue w)) = false ->
  exists n, asks_for w n.
Proof.
  unfold asks_for. destruct (parseInt (inputValue w)) as [|n]; simpl.
  - discriminate.
  - intros Hgt. exists n. split; [reflexivity|]. now apply Z.leb_gt.
Qed.

Lemma handleSubmit_valid fuel w n :
  asks_for w n ->
  handleSubmit source fuel w =
  match while_loop source fuel n (mkLocals [] 1) (entry w) with
  | None => None
  | Some (Throw e, w2) => Some (Throw e, w2)
  | Some (Normal s, w2) => Some (Normal tt, finished s w2)
  end.
Proof.
  intros Hask. unfold handleSubmit.
  rewrite (asks_for_valid w n Hask). destruct Hask as [-> _]. simpl.
  destruct (while_loop source fuel n (mkLocals [] 1) _) as [[[s|e] w2]|];
    reflexivity.
Qed.

Lemma handleSubmit_invalid fuel w :
  isNaN (parseInt (inputValue w)) || leq0 (parseInt (inputValue w)) = true ->
  handleSubmit source fuel w =
  Some (Normal tt,
        logged (ConsoleError "Invalid input. Please enter a positive number.")
          w).
Proof.
  intros Hbad. unfold handleSubmit. rewrite Hbad. reflexivity.
Qed.

(** ** What a turn does to the selection *)

Lemma iteration_next_inv n s w s' w' :
  iteration source n s w = (Normal (Next s'), w') ->
  exists items pagination,
    source (currentPageToFetch s) = Fulfilled (Data items pagination) /\
    len items < n - len (selectedItems s) /\
    more_pages pagination = true /\
    s' = mkLocals
           (selectedItems s
            ++ slice0 (filter (unseen (selectedItems s)) items)
                 (n - len (selectedItems s)))
           (currentPageToFetch s + 1) /\
    w' = exchanged source (currentPageToFetch s) w.
Proof.
  destruct (source (currentPageToFetch s)) as [|[|items pagination]] eqn:Hsrc.
  - rewrite (iteration_rejected n s w Hsrc). discriminate.
  - rewrite (iteration_nodata n s w Hsrc). discriminate.
  - rewrite (iteration_data n s w items pagination Hsrc).
    destruct (Z.ltb_spec (len items) (n - len (selectedItems s)));
      [destruct (more_pages pagination) eqn:Hmore|]; try discriminate.
    intros Heq. inversion Heq. exists items, pagination.
    repeat split; assumption.
Qed.

(** A turn leaves the selection alone or appends unseen records of the page
    it fetched. *)
Lemma iteration_selected n s w st w' :
  iteration source n s w = (Normal st, w') ->
  selectedItems (locals st) = selectedItems s \/
  exists items pagination,
    source (currentPageToFetch s) = Fulfilled (Data items pagination) /\
    selectedItems (locals st)
    = selectedItems s
      ++ slice0 (filter (unseen (selectedItems s)) items)
           (n - len (selectedItems s)).
Proof.
  destruct (source (currentPageToFetch s)) as [|[|items pagination]] eqn:Hsrc.
  - rewrite (iteration_rejected n s w Hsrc). intros Heq.
    inversion Heq. now left.
  - rewrite (iteration_nodata n s w Hsrc). intros Heq.
    inversion Heq. now left.
  - rewrite (iteration_data n s w items pagination Hsrc). intros Heq.
    right. exists items, pagination. split; [reflexivity|].
    destruct (len items <? n - len (selectedItems s));
      [destruct (more_pages pagination)|]; inversion Heq; reflexivity.
Qed.

Lemma iteration_extends n s w st w' :
  iteration source n s w = (Normal st, w') ->
  exists extra, selectedItems (locals st) = selectedItems s ++ extra.
Proof.
  intros Hturn. destruct (iteration_selected n s w st w' Hturn)
    as [Hsame|[items [pagination [_ Happ]]]].
  - exists []. now rewrite app_nil_r.
  - eexists. exact Happ.
Qed.

Lemma iteration_distinct n s w st w' :
  (forall p items pagination,
      source p = Fulfilled (Data items pagination) -> distinct_ids items) ->
  distinct_ids (selectedItems s) ->
  iteration source n s w = (Normal st, w') ->
  distinct_ids (selectedItems (locals st)).
Proof.
  intros Hpages Hacc Hturn. destruct (iteration_selected n s w st w' Hturn)
    as [Hsame|[items [pagination [Hsrc Happ]]]].
  - now rewrite Hsame.
  - rewrite Happ. apply collect_distinct; [assumption|].
    eapply Hpages; eassumption.
Qed.

Lemma iteration_fetched n s w st w' :
  all_fetched source (selectedItems s) ->
  iteration source n s w = (Normal st, w') ->
  all_fetched source (selectedItems (locals st)).
Proof.
  intros Hacc Hturn. destruct (iteration_selected n s w st w' Hturn)
    as [Hsame|[items [pagination [Hsrc Happ]]]].
  - now rewrite Hsame.
  - rewrite Happ. intros a Hin. apply in_app_or in Hin.
    destruct Hin as [Hin|Hin]; [now apply Hacc|].
    apply in_slice0 in Hin. apply filter_In in Hin.
    exists (currentPageToFetch s), items, pagination. tauto.
Qed.

(** ** Invariants of the loop *)

(** A turn that goes on has not yet filled the selection: the loop test
    never fails after a turn. *)
Lemma reaches_short n w0 s w :
  0 < n -> reaches source n w0 s w -> len (selectedItems s) < n.
Proof.
  intros Hpos. induction 1 as [|s w s' w' Hreach IH Hlt Hturn].
  - exact Hpos.
  - apply iteration_next_inv in Hturn.
    destruct Hturn as [items [pagination [_ [Hraw [_ [-> _]]]]]]. simpl.
    rewrite len_app.
    pose proof (len_slice0_le (filter (unseen (selectedItems s)) items)
                  (n - len (selectedItems s))).
    pose proof (len_filter_le (unseen (selectedItems s)) items).
    lia.
Qed.

Lemma reaches_distinct n w0 s w :
  (forall p items pagination,
      source p = Fulfilled (Data items pagination) -> distinct_ids items) ->
  reaches source n w0 s w -> distinct_ids (selectedItems s).
Proof.
  intros Hpages. induction 1 as [|s w s' w' Hreach IH Hlt Hturn].
  - constructor.
  - exact (iteration_distinct n s w (Next s') w' Hpages IH Hturn).
Qed.

Lemma reaches_fetched n w0 s w :
  reaches source n w0 s w -> all_fetched source (selectedItems s).
Proof.
  induction 1 as [|s w s' w' Hreach IH Hlt Hturn].
  - intros a [].
  - exact (iteration_fetched n s w (Next s') w' IH Hturn).
Qed.

(** The locals with which the loop returns do not depend on the world. *)
Lemma while_loop_indep fuel n s w1 w2 c w1' :
  while_loop source fuel n s w1 = Some (c, w1') ->
  exists w2', while_loop source fuel n s w2 = Some (c, w2').
Proof.
  revert s w1 w2. induction fuel as [|fuel IH]; intros s w1 w2 Hrun.
  - destruct (Z.lt_ge_cases (len (selectedItems s)) n) as [Hlt|Hge].
    + rewrite while_loop_dry in Hrun by assumption. discriminate.
    + rewrite while_loop_exit in * by assumption.
      inversion Hrun; subst. now exists w2.
  - destruct (Z.lt_ge_cases (len (selectedItems s)) n) as [Hlt|Hge].
    + rewrite while_loop_turn in * by assumption.
      pose proof (iteration_indep n s w1 w2) as Hfst.
      destruct (iteration source n s w1) as [c1 x1].
      destruct (iteration source n s w2) as [c2 x2].
      simpl in Hfst. subst c2.
      destruct c1 as [[s'|s']|e].
      * eapply IH; eassumption.
      * inversion Hrun; subst. now exists x2.
      * inversion Hrun; subst. now exists x2.
    + rewrite while_loop_exit in * by assumption.
      inversion Hrun; subst. now exists w2.
Qed.

(** A reached state whose turn ends in [break]: with fuel for as many turns
    as the cursor says, [handleSubmit] returns what that turn leaves, and
    its requests are those for the pages up to the cursor. *)
Lemma handleSubmit_breaks n w0 s w s' w' :
  asks_for w0 n ->
  reaches source n (entry w0) s w ->
  iteration source n s w = (Normal (Done s'), w') ->
  forall fuel, (Z.to_nat (currentPageToFetch s) <= fuel)%nat ->
    handleSubmit source fuel w0 = Some (Normal tt, finished s' w') /\
    network (finished s' w')
    = network w0
      ++ exchanges source (first_pages (Z.to_nat (currentPageToFetch s))).
Proof.
  intros Hask Hreach Hturn fuel Hfuel.
  pose proof Hask as [_ Hpos].
  pose proof (reaches_short n _ s w Hpos Hreach) as Hlt.
  destruct (reaches_trace n _ s w Hreach) as [k [Hpage [Hnet [_ Hrun]]]].
  rewrite Hpage, Nat2Z.id in *. split.
  - rewrite (handleSubmit_valid fuel w0 n Hask).
    replace fuel with (k + S (fuel - S k))%nat by lia.
    rewrite Hrun, while_loop_turn by assumption. now rewrite Hturn.
  - destruct (iteration_shape n s w) as [st [w1 [Heq [_ [Hnet1 _]]]]].
    rewrite Heq in Hturn. inversion Hturn; subst st w1.
    change (network (finished s' w')) with (network w').
    rewrite Hnet1, Hnet, Hpage, <- app_assoc.
    change (network (entry w0)) with (network w0). f_equal.
    unfold first_pages, exchanges. rewrite seq_S, map_app, flat_map_app.
    reflexivity.
Qed.

(** ** The walk over pages that do not cut it short *)

Lemma concat_snoc (done_ : list (list Artwork)) (items : list Artwork) :
  List.concat (done_ ++ [items]) = List.concat done_ ++ items.
Proof. rewrite concat_app. simpl. now rewrite app_nil_r. Qed.

Lemma firstn_over_app (n : Z) (acc fresh : list Artwork) :
  len acc < n ->
  firstn (Z.to_nat n) (acc ++ fresh)
  = acc ++ slice0 fresh (n - len acc).
Proof.
  intros Hlt. unfold len in *. rewrite slice0_nonneg by lia.
  rewrite firstn_app, firstn_all2 by lia.
  do 2 f_equal. lia.
Qed.

Lemma walk_pages (n : Z) (rest done_ : list (list Artwork)) (w : World) :
  rest <> [] ->
  serves source (1 + len done_) rest ->
  Forall distinct_ids rest ->
  (forall i items,
      (i + 1 < List.length rest)%nat ->
      nth_error rest i = Some items ->
      len items
      < n - len (first_seen (List.concat (done_ ++ firstn i rest)))) ->
  len (first_seen (List.concat done_)) < n ->
  n <= len (first_seen (List.concat (done_ ++ rest))) ->
  exists w' p,
    while_loop source (List.length rest) n
      (mkLocals (first_seen (List.concat done_)) (1 + len done_)) w
    = Some
        (Normal
           (mkLocals
              (firstn (Z.to_nat n)
                 (first_seen (List.concat (done_ ++ rest)))) p),
         w').
Proof.
  revert done_ w.
  induction rest as [|items rest IH]; intros done_ w Hne Hserve Hdist Hshort
    Hacc Henough; [congruence|].
  destruct Hserve as [[pagination [Hsrc Hmore]] Hserve].
  inversion Hdist as [|x xs Hitems Hdist']; subst.
  set (acc := first_seen (List.concat done_)) in *.
  assert (Hpage : first_seen (List.concat (done_ ++ [items]))
                  = acc ++ filter (unseen acc) items).
  { rewrite concat_snoc. now apply first_seen_page. }
  pose proof (len_filter_le (unseen acc) items) as Hfresh.
  change (List.length (items :: rest)) with (S (List.length rest)).
  rewrite while_loop_turn by exact Hacc.
  rewrite (iteration_data n (mkLocals acc (1 + len done_)) w items pagination
             Hsrc).
  cbn beta zeta iota delta [selectedItems currentPageToFetch].
  destruct rest as [|next rest].
  - (* the last page: it covers what is still needed *)
    rewrite Hpage in Henough. rewrite len_app in Henough.
    destruct (Z.ltb_spec (len items) (n - len acc)) as [Hlt|_]; [lia|].
    do 2 eexists. rewrite Hpage, firstn_over_app by exact Hacc.
    reflexivity.
  - (* an earlier page: too short, so the cursor moves on *)
    assert (Hlt : len items < n - len acc).
    { specialize (Hshort O items). simpl in Hshort.
      rewrite app_nil_r in Hshort. apply Hshort; [simpl; lia|reflexivity]. }
    destruct (Z.ltb_spec (len items) (n - len acc)) as [_|Hge]; [|lia].
    rewrite Hmore by discriminate.
    rewrite slice0_all by lia. rewrite <- Hpage.
    replace (1 + len done_ + 1) with (1 + len (done_ ++ [items]))
      by (rewrite len_snoc; lia).
    replace (done_ ++ items :: next :: rest)
      with ((done_ ++ [items]) ++ next :: rest)
      by (now rewrite <- app_assoc).
    apply IH.
    + discriminate.
    + replace (1 + len (done_ ++ [items])) with (1 + len done_ + 1)
        by (rewrite len_snoc; lia).
      exact Hserve.
    + exact Hdist'.
    + intros i items' Hi Hnth.
      rewrite <- app_assoc. simpl.
      apply (Hshort (S i) items'); [simpl in *; lia|exact Hnth].
    + rewrite Hpage, len_app. lia.
    + rewrite <- app_assoc. exact Henough.
Qed.

(** C1: when pages 1..k are served (every page but the last reporting that
    more follow), no page lists an id twice, every page before the last is
    shorter than what was still needed when it arrived, and the pages hold at
    least [n] distinct ids, then [handleSubmit] returns after k turns with
    exactly [n] records, no id twice: the first [n] records of pages 1, 2,
    ..., k in first-seen order. *)
Theorem select_first_n (pages : list (list Artwork)) (n : Z) (w : World) :
  asks_for w n ->
  pages <> [] ->
  serves source 1 pages ->
  Forall distinct_ids pages ->
  short_before_last n pages ->
  n <= len (first_seen (List.concat pages)) ->
  exists w',
    handleSubmit source (List.length pages) w = Some (Normal tt, w') /\
    selectedArtworks w'
    = firstn (Z.to_nat n) (first_seen (List.concat pages)) /\
    len (selectedArtworks w') = n /\
    distinct_ids (selectedArtworks w').
Proof.
  intros Hask Hne Hserve Hdist Hshort Henough.
  pose proof Hask as [_ Hpos].
  destruct (walk_pages n pages [] (entry w) Hne Hserve Hdist Hshort)
    as [w2 [p Hrun]].
  - exact Hpos.
  - exact Henough.
  - rewrite (handleSubmit_valid _ w n Hask).
    simpl in Hrun. rewrite Hrun.
    eexists. split; [reflexivity|]. simpl.
    split; [reflexivity|]. split.
    + unfold len in *. rewrite length_firstn. lia.
    + unfold distinct_ids in *.
      apply distinct_firstn, first_seen_distinct.
Qed.

(** ** The page that looks sufficient *)

(** C2: when the walk has reached a page whose raw item count covers what is
    still needed, but the unseen records among them leave the selection
    below [n], [handleSubmit] returns that short selection, and the request
    for this page is the last one; what the pagination says about further
    pages plays no part. *)
Theorem stops_on_sufficient_page n w0 s w items pagination :
  asks_for w0 n ->
  reaches source n (entry w0) s w ->
  source (currentPageToFetch s) = Fulfilled (Data items pagination) ->
  n - len (selectedItems s) <= len items ->
  len (selectedItems s
       ++ slice0 (filter (unseen (selectedItems s)) items)
            (n - len (selectedItems s))) < n ->
  forall fuel, (Z.to_nat (currentPageToFetch s) <= fuel)%nat ->
    exists w',
      handleSubmit source fuel w0 = Some (Normal tt, w') /\
      selectedArtworks w'
      = selectedItems s
        ++ slice0 (filter (unseen (selectedItems s)) items)
             (n - len (selectedItems s)) /\
      len (selectedArtworks w') < n /\
      network w'
      = network w0
        ++ exchanges source (first_pages (Z.to_nat (currentPageToFetch s))).
Proof.
  intros Hask Hreach Hsrc Hraw Hshort fuel Hfuel.
  pose proof (iteration_data n s w items pagination Hsrc) as Hturn.
  cbv zeta in Hturn.
  destruct (Z.ltb_spec (len items) (n - len (selectedItems s))) as [Hlt|_];
    [lia|].
  destruct (handleSubmit_breaks n w0 s w _ _ Hask Hreach Hturn fuel Hfuel)
    as [Hrun Hnet].
  eexists. split; [exact Hrun|].
  split; [reflexivity|]. split; [exact Hshort|exact Hnet].
Qed.

(** ** No id twice *)

(** C3: when no page of the source lists an id twice, the selection never
    holds two records with the same id, whatever the pages share with one
    another: at every loop test, and in what [handleSubmit] stores.  A turn
    only appends to the selection, so the first occurrence stays. *)
Theorem selection_distinct n w :
  (forall p items pagination,
      source p = Fulfilled (Data items pagination) -> distinct_ids items) ->
  asks_for w n ->
  (forall s w1,
      reaches source n (entry w) s w1 -> distinct_ids (selectedItems s)) /\
  (forall s w1 st w2,
      iteration source n s w1 = (Normal st, w2) ->
      exists extra, selectedItems (locals st) = selectedItems s ++ extra) /\
  (forall fuel c w',
      handleSubmit source fuel w = Some (c, w') ->
      distinct_ids (selectedArtworks w')).
Proof.
  intros Hpages Hask. split; [|split].
  - intros s w1. apply reaches_distinct, Hpages.
  - intros s w1 st w2. apply iteration_extends.
  - intros fuel c w' Hrun.
    rewrite (handleSubmit_valid fuel w n Hask) in Hrun.
    destruct (while_loop source fuel n (mkLocals [] 1) (entry w))
      as [[c0 w2]|] eqn:Hloop; [|discriminate].
    destruct (while_loop_returns fuel n (entry w) _ _ c0 w2
                (reaches_start source n (entry w)) Hloop)
      as [s1 [w1 [Hreach [[_ [-> ->]]|[_ [s2 [Hturn ->]]]]]]];
      inversion Hrun; subst; simpl.
    + now apply (reaches_distinct n (entry w) s1 w1).
    + apply (iteration_distinct n s1 w1 (Done s2) w2 Hpages);
        [|assumption].
      now apply (reaches_distinct n (entry w) s1 w1).
Qed.

(** ** A fetch that fails *)

(** C4: when the walk has reached a page whose fetch fails, because the
    request is rejected or because the payload has no data field,
    [handleSubmit] returns normally and stores what was selected up to that
    page. *)
Theorem fetch_failure_returns_partial n w0 s w :
  asks_for w0 n ->
  reaches source n (entry w0) s w ->
  failed (source (currentPageToFetch s)) = true ->
  forall fuel, (Z.to_nat (currentPageToFetch s) <= fuel)%nat ->
    exists w',
      handleSubmit source fuel w0 = Some (Normal tt, w') /\
      selectedArtworks w' = selectedItems s.
Proof.
  intros Hask Hreach Hfail fuel Hfuel.
  destruct (source (currentPageToFetch s)) as [|[|items pagination]] eqn:Hsrc;
    try discriminate.
  - pose proof (iteration_rejected n s w Hsrc) as Hturn.
    destruct (handleSubmit_breaks n w0 s w _ _ Hask Hreach Hturn fuel Hfuel)
      as [Hrun _].
    eexists. split; [exact Hrun|reflexivity].
  - pose proof (iteration_nodata n s w Hsrc) as Hturn.
    destruct (handleSubmit_breaks n w0 s w _ _ Hask Hreach Hturn fuel Hfuel)
      as [Hrun _].
    eexists. split; [exact Hrun|reflexivity].
Qed.

(** No run of [handleSubmit] ends in an exception. *)
Lemma handleSubmit_never_throws fuel w c w' :
  handleSubmit source fuel w = Some (c, w') -> c = Normal tt.
Proof.
  destruct (isNaN (parseInt (inputValue w)) || leq0 (parseInt (inputValue w)))
    eqn:Hguard.
  - rewrite (handleSubmit_invalid fuel w Hguard). now inversion 1.
  - destruct (valid_asks_for w Hguard) as [n Hask].
    rewrite (handleSubmit_valid fuel w n Hask).
    destruct (while_loop source fuel n (mkLocals [] 1) (entry w))
      as [[c0 w2]|] eqn:Hloop; [|discriminate].
    destruct (while_loop_returns fuel n (entry w) _ _ c0 w2
                (reaches_start source n (entry w)) Hloop)
      as [s1 [w1 [_ [[_ [-> _]]|[_ [s2 [_ ->]]]]]]]; now inversion 1.
Qed.

(** ** Validation *)

(** C5: when [parseInt] finds no digits at the head of the input (after
    white space and a sign), or the number it reads is zero or negative,
    [handleSubmit] logs the validation error and returns; no request goes
    out and the React state stays as it is. *)
Theorem invalid_input_no_fetch fuel w :
  parseInt (inputValue w) = NaN \/
  (exists z, parseInt (inputValue w) = Int z /\ z <= 0) ->
  exists w',
    handleSubmit source fuel w = Some (Normal tt, w') /\
    network w' = network w /\
    console w'
    = console w
      ++ [ConsoleError "Invalid input. Please enter a positive number."] /\
    ui w' = ui w.
Proof.
  intros Hbad. eexists. split.
  - apply handleSubmit_invalid.
    destruct Hbad as [->|[z [-> Hle]]]; simpl; [reflexivity|].
    now apply Z.leb_le.
  - repeat split.
Qed.

(** ** Termination *)

Lemma while_loop_terminates n T :
  (forall p items pg,
      source p = Fulfilled (Data items (Some pg)) ->
      current_page pg = p /\ total_pages pg <= T) ->
  forall fuel s w,
    (Z.to_nat (T - currentPageToFetch s) < fuel)%nat ->
    exists s' w', while_loop source fuel n s w = Some (Normal s', w').
Proof.
  intros Hmeta. induction fuel as [|fuel IH]; intros s w Hfuel; [lia|].
  destruct (Z.lt_ge_cases (len (selectedItems s)) n) as [Hlt|Hge].
  - rewrite while_loop_turn by assumption.
    destruct (iteration_shape n s w) as [st [w1 [Heq _]]].
    rewrite Heq. destruct st as [s'|s']; [|now exists s', w1].
    apply iteration_next_inv in Heq.
    destruct Heq as [items [pagination [Hsrc [_ [Hmore [-> _]]]]]].
    destruct pagination as [pg|]; [|discriminate].
    destruct (Hmeta _ _ _ Hsrc) as [Hcur Htot].
    simpl in Hmore. apply Z.ltb_lt in Hmore.
    apply IH. simpl. lia.
  - rewrite while_loop_exit by assumption. now exists s, w.
Qed.

(** C6: when every page's pagination names the requested page as
    [current_page] and a [total_pages] of at most [T], the walk ends.  A
    turn either moves the cursor one page forward, which it does below [T]
    only, or leaves the loop with the cursor where it was, and it leaves
    the loop in one of three ways: the fetch failed (rejected, or no data);
    the page was shorter than what was still needed and reports no further
    page; or the raw item count of the page covers what was still needed,
    and then the selection is full exactly when that many of its records
    were unseen, and short otherwise.  With fuel for [T] turns (one turn
    when [T] is below one) [handleSubmit] returns. *)
Theorem walk_terminates n T w :
  asks_for w n ->
  (forall p items pg,
      source p = Fulfilled (Data items (Some pg)) ->
      current_page pg = p /\ total_pages pg <= T) ->
  (forall s w1,
      len (selectedItems s) < n ->
      exists st w2,
        iteration source n s w1 = (Normal st, w2) /\
        match st with
        | Next s' =>
            currentPageToFetch s' = currentPageToFetch s + 1 /\
            currentPageToFetch s < T
        | Done s' =>
            currentPageToFetch s' = currentPageToFetch s /\
            (failed (source (currentPageToFetch s)) = true \/
             exists items pagination,
               source (currentPageToFetch s)
               = Fulfilled (Data items pagination) /\
               ((len items < n - len (selectedItems s) /\
                 more_pages pagination = false) \/
                (n - len (selectedItems s) <= len items /\
                 len (selectedItems s') <= n /\
                 (len (selectedItems s') = n <->
                  n - len (selectedItems s)
                  <= len (filter (unseen (selectedItems s)) items)))))
        end) /\
  (forall fuel, (Z.to_nat (Z.max T 1) <= fuel)%nat ->
     exists w', handleSubmit source fuel w = Some (Normal tt, w')).
Proof.
  intros Hask Hmeta. split.
  - intros s w1 Hlt.
    destruct (source (currentPageToFetch s)) as [|[|items pagination]]
      eqn:Hsrc.
    + rewrite (iteration_rejected n s w1 Hsrc). do 2 eexists.
      split; [reflexivity|]. split; [reflexivity|now left].
    + rewrite (iteration_nodata n s w1 Hsrc). do 2 eexists.
      split; [reflexivity|]. split; [reflexivity|now left].
    + rewrite (iteration_data n s w1 items pagination Hsrc).
      destruct (Z.ltb_spec (len items) (n - len (selectedItems s)))
        as [Hraw|Hraw]; [destruct (more_pages pagination) eqn:Hmore|];
        do 2 eexists; (split; [reflexivity|]).
      * destruct pagination as [pg|]; [|discriminate].
        destruct (Hmeta _ _ _ Hsrc) as [Hcur Htot].
        simpl in Hmore. apply Z.ltb_lt in Hmore. simpl. lia.
      * split; [reflexivity|]. right. exists items, pagination.
        split; [reflexivity|]. left. now split.
      * split; [reflexivity|]. right. exists items, pagination.
        split; [reflexivity|]. right. split; [exact Hraw|].
        cbn [selectedItems]. rewrite len_app, slice0_nonneg by lia.
        unfold len in *. rewrite length_firstn. lia.
  - intros fuel Hfuel.
    rewrite (handleSubmit_valid fuel w n Hask).
    destruct (while_loop_terminates n T Hmeta fuel (mkLocals [] 1) (entry w))
      as [s' [w' ->]]; [simpl; lia|].
    eexists. reflexivity.
Qed.

(** ** The order of the requests *)

(** C7: whatever the React state, [currentPage] included: at every loop test
    the trace holds the requests for pages 1, ..., k, each followed by its
    outcome, and the cursor stands at k + 1; when [handleSubmit] returns,
    its trace is that of pages 1, ..., k + 1 for some k.  So the first
    request is for page 1, and the request for a page follows the outcome of
    the page before it. *)
Theorem fetches_in_page_order n w :
  asks_for w n ->
  (forall s w1,
      reaches source n (entry w) s w1 ->
      exists k,
        currentPageToFetch s = Z.of_nat (S k) /\
        network w1 = network w ++ exchanges source (first_pages k)) /\
  (forall fuel c w',
      handleSubmit source fuel w = Some (c, w') ->
      exists k,
        network w' = network w ++ exchanges source (first_pages (S k))).
Proof.
  intros Hask. pose proof Hask as [_ Hpos]. split.
  - intros s w1 Hreach.
    destruct (reaches_trace n _ s w1 Hreach) as [k [Hpage [Hnet _]]].
    exists k. split; assumption.
  - intros fuel c w' Hrun.
    rewrite (handleSubmit_valid fuel w n Hask) in Hrun.
    destruct (while_loop source fuel n (mkLocals [] 1) (entry w))
      as [[c0 w2]|] eqn:Hloop; [|discriminate].
    destruct (while_loop_returns fuel n (entry w) _ _ c0 w2
                (reaches_start source n (entry w)) Hloop)
      as [s1 [w1 [Hreach [[Hge _]|[_ [s2 [Hturn ->]]]]]]].
    + pose proof (reaches_short n _ s1 w1 Hpos Hreach). lia.
    + inversion Hrun; subst.
      destruct (reaches_trace n _ s1 w1 Hreach) as [k [Hpage _]].
      exists k.
      destruct (handleSubmit_breaks n w s1 w1 s2 w2 Hask Hreach Hturn
                  (Z.to_nat (currentPageToFetch s1)) (le_n _)) as [_ Hnet].
      rewrite Hnet, Hpage, Nat2Z.id. reflexivity.
Qed.

(** ** The paginated view *)

Lemma fetchArtworks_rejected page w :
  source page = Rejected ->
  fetchArtworks source page w =
  (Normal tt,
   snd (setLoading false
          (logged (ConsoleError "Error fetching artworks:")
             (exchanged source page (snd (setLoading true w)))))).
Proof.
  intros H. unfold_js. unfold exchanged. simpl. rewrite H. reflexivity.
Qed.

Lemma fetchArtworks_nodata page w :
  source page = Fulfilled NoData ->
  fetchArtworks source page w =
  (Normal tt,
   snd (setLoading false (exchanged source page (snd (setLoading true w))))).
Proof.
  intros H. unfold_js. unfold exchanged. simpl. rewrite H. reflexivity.
Qed.

Lemma fetchArtworks_page page w items pg :
  source page = Fulfilled (Data items (Some pg)) ->
  fetchArtworks source page w =
  (Normal tt,
   snd (setLoading false
          (snd (setCurrentPage (current_page pg)
                  (snd (setTotalRecords (total pg)
                          (snd (setArtworks items
                                  (exchanged source page
                                     (snd (setLoading true w))))))))))).
Proof.
  intros H. unfold_js. unfold exchanged. simpl. rewrite H. reflexivity.
Qed.

(** A payload with rows but without pagination: the rows are set before the
    read of [data.pagination.total] throws. *)
Lemma fetchArtworks_no_pagination page w items :
  source page = Fulfilled (Data items None) ->
  fetchArtworks source page w =
  (Normal tt,
   snd (setLoading false
          (logged (ConsoleError "Error fetching artworks:")
             (snd (setArtworks items
                     (exchanged source page (snd (setLoading true w)))))))).
Proof.
  intros H. unfold_js. unfold exchanged. simpl. rewrite H. reflexivity.
Qed.

Lemma network_fetchArtworks page w :
  network (snd (fetchArtworks source page w))
  = network w ++ exchanges source [page].
Proof.
  destruct (source page) as [|[|items [pg|]]] eqn:Hsrc.
  - rewrite (fetchArtworks_rejected page w Hsrc). exact (network_exchanged page (snd (setLoading true w))).
  - rewrite (fetchArtworks_nodata page w Hsrc). exact (network_exchanged page (snd (setLoading true w))).
  - rewrite (fetchArtworks_page page w items pg Hsrc).
    exact (network_exchanged page (snd (setLoading true w))).
  - rewrite (fetchArtworks_no_pagination page w items Hsrc).
    exact (network_exchanged page (snd (setLoading true w))).
Qed.

(** The two failing fetches, side by side: a rejected request is logged, a
    payload without data field is not.  In both cases [fetchArtworks]
    returns normally with the loading flag cleared and with rows, total and
    current page as they were. *)
Theorem fetchArtworks_failure page w :
  (source page = Rejected ->
   fetchArtworks source page w
   = (Normal tt, snd (fetchArtworks source page w)) /\
   console (snd (fetchArtworks source page w))
   = console w ++ [ConsoleError "Error fetching artworks:"] /\
   loading (snd (fetchArtworks source page w)) = false /\
   artworks (snd (fetchArtworks source page w)) = artworks w /\
   totalRecords (snd (fetchArtworks source page w)) = totalRecords w /\
   currentPage (snd (fetchArtworks source page w)) = currentPage w) /\
  (source page = Fulfilled NoData ->
   fetchArtworks source page w
   = (Normal tt, snd (fetchArtworks source page w)) /\
   console (snd (fetchArtworks source page w)) = console w /\
   loading (snd (fetchArtworks source page w)) = false /\
   artworks (snd (fetchArtworks source page w)) = artworks w /\
   totalRecords (snd (fetchArtworks source page w)) = totalRecords w /\
   currentPage (snd (fetchArtworks source page w)) = currentPage w).
Proof.
  split; intros Hsrc.
  - rewrite (fetchArtworks_rejected page w Hsrc). repeat split.
  - rewrite (fetchArtworks_nodata page w Hsrc). repeat split.
Qed.

(** C9: a page event with zero-based index [p] makes [onPageChange] request
    page [p + 1], and nothing else; an event without page index makes it
    request page 1. *)
Theorem page_change_fetches_next (first_ rows_ : Z) (w : World) :
  (forall p,
      network (snd (onPageChange source (mkEvent first_ rows_ (Some p)) w))
      = network w ++ [Request (p + 1); Response (p + 1) (source (p + 1))]) /\
  network (snd (onPageChange source (mkEvent first_ rows_ None) w))
  = network w ++ [Request 1; Response 1 (source 1)].
Proof.
  split; [intros p|]; unfold onPageChange; simpl page;
    apply network_fetchArtworks.
Qed.

(** ** The selection after the walk *)

(** C10: when [handleSubmit] returns after a walk, [selectedArtworks] is the
    list that the loop accumulated: every record in it was listed by a page
    of the source, and whatever was ticked before has no influence on it. *)
Theorem selection_replaced n fuel w c w' :
  asks_for w n ->
  handleSubmit source fuel w = Some (c, w') ->
  (exists s w2,
      while_loop source fuel n (mkLocals [] 1) (entry w)
      = Some (Normal s, w2) /\
      selectedArtworks w' = selectedItems s) /\
  all_fetched source (selectedArtworks w') /\
  (forall previous,
      exists w'',
        handleSubmit source fuel (snd (onSelectionChange previous w))
        = Some (c, w'') /\
        selectedArtworks w'' = selectedArtworks w').
Proof.
  intros Hask Hrun.
  rewrite (handleSubmit_valid fuel w n Hask) in Hrun.
  destruct (while_loop source fuel n (mkLocals [] 1) (entry w))
    as [[c0 w2]|] eqn:Hloop; [|discriminate].
  destruct (while_loop_returns fuel n (entry w) _ _ c0 w2
              (reaches_start source n (entry w)) Hloop)
    as [s1 [w1 [Hreach Hend]]].
  assert (Hs : exists s, c0 = Normal s /\ all_fetched source (selectedItems s)).
  { destruct Hend as [[_ [-> _]]|[_ [s2 [Hturn ->]]]].
    - exists s1. split; [reflexivity|]. eapply reaches_fetched; eassumption.
    - exists s2. split; [reflexivity|].
      apply (iteration_fetched n s1 w1 (Done s2) w2); [|assumption].
      eapply reaches_fetched; eassumption. }
  destruct Hs as [s [-> Hfetched]]. inversion Hrun; subst c w'.
  split; [|split].
  - exists s, w2. split; reflexivity.
  - exact Hfetched.
  - intros previous.
    assert (Hask' : asks_for (snd (onSelectionChange previous w)) n)
      by exact Hask.
    rewrite (handleSubmit_valid fuel _ n Hask').
    destruct (while_loop_indep fuel n (mkLocals [] 1) (entry w)
                (entry (snd (onSelectionChange previous w))) _ _ Hloop)
      as [w3 ->].
    eexists. split; reflexivity.
Qed.

End Properties.

(** * Scenarios *)

(** ** Pages of twelve, twenty records wanted *)

(** C1 on the scenario of the specification: all of page 1, then the first
    eight records of page 2. *)
Lemma select_first_n_gallery :
  exists w',
    handleSubmit gallery 2 (withInput "20") = Some (Normal tt, w') /\
    selectedArtworks w' = arts 1 12 ++ arts 13 8.
Proof.
  destruct (select_first_n gallery [arts 1 12; arts 13 12] 20 (withInput "20"))
    as [w' [Hrun [Hsel _]]].
  - split; [reflexivity|lia].
  - discriminate.
  - simpl. repeat split; eexists; (split; [reflexivity|]); intros _;
      reflexivity.
  - apply Forall_cons; [|apply Forall_cons; [|apply Forall_nil]];
      apply distinct_by_first_seen; reflexivity.
  - intros i items Hi Hnth. destruct i as [|[|i]]; simpl in Hi; try lia.
    inversion Hnth; subst. reflexivity.
  - vm_compute. discriminate.
  - exists w'. split; [exact Hrun|exact Hsel].
Defined.

(** ** Overlapping pages *)

Lemma asks_for_4 : asks_for (withInput "4") 4.
Proof. split; [reflexivity|lia]. Qed.

(** C1 as stated fails: five distinct records are within reach, four are
    asked for, three are returned. *)
Lemma overlap_leaves_selection_short :
  asks_for (withInput "4") 4 /\
  enough_unique_records overlapping 4 /\
  ~ returns_exactly overlapping (withInput "4") 4.
Proof.
  split; [exact asks_for_4|]. split.
  - exists [[art 1; art 2]; [art 2; art 3]; [art 4; art 5]].
    split; [discriminate|]. split.
    + simpl. repeat split; eexists; (split; [reflexivity|]);
        intros Hrest; first [reflexivity|now elim Hrest].
    + vm_compute. discriminate.
  - intros [fuel [w' [Hrun [Hlen _]]]].
    destruct fuel as [|[|fuel]]; try discriminate.
    vm_compute in Hrun. inversion Hrun; subst. discriminate.
Qed.

(** C2 on the overlapping pages: page 2 has two items for the two that are
    still needed, one of them seen before; the walk ends with three records
    although page 2 reports a third page. *)
Lemma stops_on_sufficient_page_overlapping :
  more_pages (Some (mkPagination 6 2 3)) = true /\
  exists w',
    handleSubmit overlapping 2 (withInput "4") = Some (Normal tt, w') /\
    selectedArtworks w' = [art 1; art 2; art 3] /\
    len (selectedArtworks w') < 4 /\
    network w'
    = [Request 1; Response 1 (overlapping 1);
       Request 2; Response 2 (overlapping 2)].
Proof.
  split; [reflexivity|].
  apply (stops_on_sufficient_page overlapping 4 (withInput "4")
           (mkLocals [art 1; art 2] 2)
           (exchanged overlapping 1 (entry (withInput "4")))
           [art 2; art 3] (Some (mkPagination 6 2 3))).
  - split; [reflexivity|lia].
  - eapply reaches_next; [apply reaches_start|reflexivity|reflexivity].
  - reflexivity.
  - vm_compute. discriminate.
  - reflexivity.
  - simpl. lia.
Defined.

Lemma overlapping_pages_distinct p items pagination :
  overlapping p = Fulfilled (Data items pagination) -> distinct_ids items.
Proof.
  unfold overlapping.
  destruct (p =? 1); [|destruct (p =? 2); [|destruct (p =? 3)]];
    intros Heq; inversion Heq; subst;
    apply distinct_by_first_seen; reflexivity.
Defined.

(** C3 on the overlapping pages: the record that pages 1 and 2 share is
    selected once. *)
Lemma selection_distinct_overlapping :
  exists w',
    handleSubmit overlapping 2 (withInput "4") = Some (Normal tt, w') /\
    distinct_ids (selectedArtworks w').
Proof.
  eexists. split; [vm_compute; reflexivity|].
  apply (proj2 (proj2 (selection_distinct overlapping 4 (withInput "4")
                         overlapping_pages_distinct
                         (conj eq_refl eq_refl)))
           2%nat (Normal tt)).
  vm_compute. reflexivity.
Defined.

(** C3 as stated fails: a page that lists a record twice puts it into the
    selection twice. *)
Lemma repeated_id_within_page :
  exists w',
    handleSubmit repeating 1 (withInput "2") = Some (Normal tt, w') /\
    selectedArtworks w' = [art 1; art 1] /\
    ~ distinct_ids (selectedArtworks w').
Proof.
  eexists. split; [vm_compute; reflexivity|]. split; [reflexivity|].
  intros Hnd. inversion Hnd as [|x xs Hnotin _]. apply Hnotin. now left.
Qed.

(** ** Failing fetches *)

(** C4 where page 2 is rejected: the two records of page 1 are what the
    walk returns. *)
Lemma fetch_failure_returns_partial_flaky :
  failed (flaky 2) = true /\
  exists w',
    handleSubmit flaky 2 (withInput "4") = Some (Normal tt, w') /\
    selectedArtworks w' = [art 1; art 2].
Proof.
  split; [reflexivity|].
  apply (fetch_failure_returns_partial flaky 4 (withInput "4")
           (mkLocals [art 1; art 2] 2)
           (exchanged flaky 1 (entry (withInput "4")))).
  - split; [reflexivity|lia].
  - eapply reaches_next; [apply reaches_start|reflexivity|reflexivity].
  - reflexivity.
  - simpl. lia.
Defined.

(** [fetchArtworks] where the request is rejected, and where the payload has
    no data field. *)
Lemma fetchArtworks_failure_flaky_hollow :
  (console (snd (fetchArtworks flaky 2 browsing))
   = [ConsoleError "Error fetching artworks:"] /\
   loading (snd (fetchArtworks flaky 2 browsing)) = false /\
   artworks (snd (fetchArtworks flaky 2 browsing)) = [art 1; art 2; art 3] /\
   totalRecords (snd (fetchArtworks flaky 2 browsing)) = 36 /\
   currentPage (snd (fetchArtworks flaky 2 browsing)) = 1) /\
  (console (snd (fetchArtworks hollow 2 browsing)) = [] /\
   loading (snd (fetchArtworks hollow 2 browsing)) = false /\
   artworks (snd (fetchArtworks hollow 2 browsing)) = [art 1; art 2; art 3] /\
   totalRecords (snd (fetchArtworks hollow 2 browsing)) = 36 /\
   currentPage (snd (fetchArtworks hollow 2 browsing)) = 1).
Proof.
  split.
  - exact (proj2 (proj1 (fetchArtworks_failure flaky 2 browsing) eq_refl)).
  - exact (proj2 (proj2 (fetchArtworks_failure hollow 2 browsing) eq_refl)).
Defined.

(** C8 where it breaks: the payload of page 2 has no data field.  That is a
    failed fetch, and [fetchArtworks] leaves the console as it was, whereas
    a turn of [handleSubmit] on the same reply logs that no data was found.
    Where the payload has rows but no pagination, [fetchArtworks] logs the
    error after it has replaced the rows on display. *)
Lemma missing_data_not_logged :
  failed (hollow 2) = true /\
  console (snd (fetchArtworks hollow 2 browsing)) = console browsing /\
  console (snd (iteration hollow 4 (mkLocals [art 1; art 2] 2) browsing))
  = console browsing ++ [ConsoleError "No data found for the current page."] /\
  console (snd (fetchArtworks unpaged 1 browsing))
  = console browsing ++ [ConsoleError "Error fetching artworks:"] /\
  artworks browsing = [art 1; art 2; art 3] /\
  artworks (snd (fetchArtworks unpaged 1 browsing)) = [art 7; art 8].
Proof. repeat split. Qed.

(** ** Validation *)

(** C5 on an input without digits. *)
Lemma invalid_input_no_fetch_letters :
  exists w',
    handleSubmit gallery 5 (withInput "abc") = Some (Normal tt, w') /\
    network w' = [] /\
    console w'
    = [ConsoleError "Invalid input. Please enter a positive number."] /\
    ui w' = ui (withInput "abc").
Proof.
  exact (invalid_input_no_fetch gallery 5 (withInput "abc")
           (or_introl eq_refl)).
Defined.

(** C5 as stated fails: an input that is no number but starts with digits
    passes the validation, and page 1 is requested. *)
Lemma digits_then_letters_accepted :
  numeric (units "12abc") = false /\
  exists w',
    handleSubmit gallery 1 (withInput "12abc") = Some (Normal tt, w') /\
    console w' = [] /\
    network w' = [Request 1; Response 1 (gallery 1)].
Proof.
  split; [reflexivity|].
  eexists. split; [vm_compute; reflexivity|]. split; reflexivity.
Qed.

(** ** Termination and order *)

Lemma gallery_pagination p items pg :
  gallery p = Fulfilled (Data items (Some pg)) ->
  current_page pg = p /\ total_pages pg <= 3.
Proof.
  unfold gallery. destruct ((1 <=? p) && (p <=? 3)); intros Heq;
    inversion Heq; subst; simpl; split; [reflexivity|lia].
Defined.

(** C6 on the gallery: more is asked for than its three pages hold. *)
Lemma walk_terminates_gallery :
  exists w', handleSubmit gallery 3 (withInput "100") = Some (Normal tt, w').
Proof.
  apply (proj2 (walk_terminates gallery 100 3 (withInput "100")
                  (conj eq_refl eq_refl) gallery_pagination)).
  simpl. lia.
Defined.

(** C6 as stated fails in the kinds of turn that it lists: on page 2 of the
    overlapping pages, with four records asked for, the turn leaves the
    loop although the selection is not filled, the page has data and
    reports a further page, and the cursor has not moved. *)
Lemma sufficient_page_turn_fits_no_kind :
  reaches overlapping 4 (entry (withInput "4"))
    (mkLocals [art 1; art 2] 2)
    (exchanged overlapping 1 (entry (withInput "4"))) /\
  exists s' w',
    iteration overlapping 4 (mkLocals [art 1; art 2] 2)
      (exchanged overlapping 1 (entry (withInput "4")))
    = (Normal (Done s'), w') /\
    len (selectedItems s') < 4 /\
    failed (overlapping 2) = false /\
    (exists items pagination,
        overlapping 2 = Fulfilled (Data items pagination) /\
        more_pages pagination = true) /\
    currentPageToFetch s' = 2 /\
    console w' = [].
Proof.
  split.
  - eapply reaches_next; [apply reaches_start|reflexivity|reflexivity].
  - do 2 eexists. split; [vm_compute; reflexivity|].
    split; [reflexivity|]. split; [reflexivity|].
    split; [do 2 eexists; split; reflexivity|]. split; reflexivity.
Qed.

(** C7 on the gallery: the world shows page 3, the walk requests pages 1
    and 2. *)
Lemma fetches_in_page_order_gallery :
  exists w' k,
    handleSubmit gallery 2
      (mkWorld [] [] false false 36 3 (units "20") true [] [])
    = Some (Normal tt, w') /\
    network w' = [] ++ exchanges gallery (first_pages (S k)).
Proof.
  pose proof (proj2 (fetches_in_page_order gallery 20
                       (mkWorld [] [] false false 36 3 (units "20") true
                          [] [])
                       (conj eq_refl eq_refl)) 2%nat) as Horder.
  remember (handleSubmit gallery 2 _) as r eqn:Hr.
  vm_compute in Hr. subst r.
  destruct (Horder _ _ eq_refl) as [k Hk].
  eexists. exists k. split; [reflexivity|exact Hk].
Defined.

(** ** Ticked rows *)

(** C10 with rows 1 and 3 ticked and two records asked for: the selection
    becomes rows 1 and 2, and ticking something else before the submit
    changes nothing. *)
Lemma selection_replaced_browsing :
  selectedArtworks browsing = [art 1; art 3] /\
  exists w'',
    handleSubmit gallery 1 (snd (onSelectionChange [art 30] browsing))
    = Some (Normal tt, w'') /\
    selectedArtworks w'' = [art 1; art 2].
Proof.
  split; [reflexivity|].
  destruct (selection_replaced gallery 2 1 browsing (Normal tt)
              (finished (mkLocals [art 1; art 2] 1)
                 (exchanged gallery 1 (entry browsing))))
    as [_ [_ Hany]].
  - split; [reflexivity|lia].
  - reflexivity.
  - exact (Hany [art 30]).
Defined.

(** * Further properties of the component *)

Section Further.

Variable source : Z -> Reply.

(** ** Runs of handleSubmit that return *)

Lemma len_slice0_bound {A : Type} (l : list A) (e : Z) :
  0 <= e -> len (slice0 l e) <= e.
Proof.
  intros He. rewrite slice0_nonneg by assumption.
  unfold len. rewrite length_firstn. lia.
Qed.

(** How a turn that ends in [break] has gone. *)
Lemma iteration_done_inv n s w s' w' :
  iteration source n s w = (Normal (Done s'), w') ->
  (failed (source (currentPageToFetch s)) = true /\
   s' = s /\
   exists msg,
     w' = logged (ConsoleError msg)
            (exchanged source (currentPageToFetch s) w)) \/
  (exists items pagination,
      source (currentPageToFetch s) = Fulfilled (Data items pagination) /\
      s' = mkLocals
             (selectedItems s
              ++ slice0 (filter (unseen (selectedItems s)) items)
                   (n - len (selectedItems s)))
             (currentPageToFetch s) /\
      ((len items < n - len (selectedItems s) /\
        more_pages pagination = false /\
        w' = logged
               (ConsoleWarn
                  "Not enough items available to fulfill the request.")
               (exchanged source (currentPageToFetch s) w)) \/
       (n - len (selectedItems s) <= len items /\
        w' = exchanged source (currentPageToFetch s) w))).
Proof.
  destruct (source (currentPageToFetch s)) as [|[|items pagination]] eqn:Hsrc.
  - rewrite (iteration_rejected source n s w Hsrc). intros Heq.
    inversion Heq; subst. left. repeat split. eexists. reflexivity.
  - rewrite (iteration_nodata source n s w Hsrc). intros Heq.
    inversion Heq; subst. left. repeat split. eexists. reflexivity.
  - rewrite (iteration_data source n s w items pagination Hsrc).
    intros Heq. right. exists items, pagination. split; [reflexivity|].
    destruct (Z.ltb_spec (len items) (n - len (selectedItems s)))
      as [Hraw|Hraw];
      [destruct (more_pages pagination) eqn:Hmore|];
      inversion Heq; subst; (split; [reflexivity|]).
    + left. repeat split. assumption.
    + right. split; [assumption|reflexivity].
Qed.

Lemma reaches_console n w0 s w :
  reaches source n w0 s w -> console w = console w0.
Proof.
  induction 1 as [|s w s' w' Hreach IH Hlt Hturn]; [reflexivity|].
  apply iteration_next_inv in Hturn.
  destruct Hturn as [items [pagination [_ [_ [_ [_ ->]]]]]]. exact IH.
Qed.

(** A run that returns after the validation has passed through a reached
    state whose turn ended in [break]. *)
Lemma handleSubmit_run n fuel w c w' :
  asks_for w n ->
  handleSubmit source fuel w = Some (c, w') ->
  exists s1 w1 s2 w2,
    reaches source n (entry w) s1 w1 /\
    len (selectedItems s1) < n /\
    iteration source n s1 w1 = (Normal (Done s2), w2) /\
    c = Normal tt /\
    w' = finished s2 w2.
Proof.
  intros Hask Hrun. pose proof Hask as [_ Hpos].
  rewrite (handleSubmit_valid source fuel w n Hask) in Hrun.
  destruct (while_loop source fuel n (mkLocals [] 1) (entry w))
    as [[c0 w2]|] eqn:Hloop; [|discriminate].
  destruct (while_loop_returns source fuel n (entry w) _ _ c0 w2
              (reaches_start source n (entry w)) Hloop)
    as [s1 [w1 [Hreach [[Hge _]|[Hlt [s2 [Hturn ->]]]]]]].
  - pose proof (reaches_short source n _ s1 w1 Hpos Hreach). lia.
  - inversion Hrun; subst. exists s1, w1, s2, w2. repeat split; assumption.
Qed.

(** X1: a run of [handleSubmit] that returns does so normally, whatever the
    input and the source, and it leaves rows, total, current page, loading
    flag and input text as they were. *)
Theorem handleSubmit_keeps_view fuel w c w' :
  handleSubmit source fuel w = Some (c, w') ->
  c = Normal tt /\
  artworks w' = artworks w /\
  totalRecords w' = totalRecords w /\
  currentPage w' = currentPage w /\
  loading w' = loading w /\
  inputValue w' = inputValue w.
Proof.
  intros Hrun.
  destruct (isNaN (parseInt (inputValue w)) || leq0 (parseInt (inputValue w)))
    eqn:Hguard.
  - rewrite (handleSubmit_invalid source fuel w Hguard) in Hrun.
    inversion Hrun; subst. repeat split.
  - destruct (valid_asks_for w Hguard) as [n Hask].
    destruct (handleSubmit_run n fuel w c w' Hask Hrun)
      as [s1 [w1 [s2 [w2 [Hreach [_ [Hturn [-> ->]]]]]]]].
    destruct (reaches_trace source n _ s1 w1 Hreach) as [k [_ [_ [Hui _]]]].
    destruct (iteration_shape source n s1 w1) as [st [w3 [Heq [Hui3 _]]]].
    rewrite Heq in Hturn. inversion Hturn; subst st w3.
    assert (Hview : ui w2 = ui (entry w)) by congruence.
    unfold ui in Hview. inversion Hview. repeat split; assumption.
Qed.

(** X2: after a walk the overlay is closed and its spinner is off, and the
    selection holds at most as many records as were asked for. *)
Theorem handleSubmit_bounded n fuel w c w' :
  asks_for w n ->
  handleSubmit source fuel w = Some (c, w') ->
  overlayLoading w' = false /\
  overlayShown w' = false /\
  len (selectedArtworks w') <= n.
Proof.
  intros Hask Hrun.
  destruct (handleSubmit_run n fuel w c w' Hask Hrun)
    as [s1 [w1 [s2 [w2 [Hreach [Hlt [Hturn [-> ->]]]]]]]].
  split; [reflexivity|]. split; [reflexivity|].
  change (len (selectedItems s2) <= n).
  destruct (iteration_selected source n s1 w1 (Done s2) w2 Hturn)
    as [Hsame|[items [pagination [_ Happ]]]]; simpl in *.
  - rewrite Hsame. lia.
  - rewrite Happ, len_app.
    pose proof (len_slice0_bound (filter (unseen (selectedItems s1)) items)
                  (n - len (selectedItems s1))).
    lia.
Qed.

(** X3: a walk writes at most one entry to the console, and what it writes
    is decided by the turn that ends it: an error when the fetch failed, the
    warning when the page was shorter than what was still needed, and
    nothing when the raw item count of the page covered what was still
    needed, whether the selection is then full or short.  So a walk that
    returns as many records as were asked for writes nothing. *)
Theorem handleSubmit_logs_once n fuel w c w' :
  asks_for w n ->
  handleSubmit source fuel w = Some (c, w') ->
  exists s1 w1 s2 w2 entries,
    reaches source n (entry w) s1 w1 /\
    iteration source n s1 w1 = (Normal (Done s2), w2) /\
    selectedArtworks w' = selectedItems s2 /\
    console w' = console w ++ entries /\
    (List.length entries <= 1)%nat /\
    (len (selectedArtworks w') = n -> entries = []) /\
    (failed (source (currentPageToFetch s1)) = true ->
     exists msg, entries = [ConsoleError msg]) /\
    (forall items pagination,
        source (currentPageToFetch s1) = Fulfilled (Data items pagination) ->
        (len items < n - len (selectedItems s1) ->
         entries
         = [ConsoleWarn
              "Not enough items available to fulfill the request."]) /\
        (n - len (selectedItems s1) <= len items -> entries = [])).
Proof.
  intros Hask Hrun.
  destruct (handleSubmit_run n fuel w c w' Hask Hrun)
    as [s1 [w1 [s2 [w2 [Hreach [Hlt [Hturn [-> ->]]]]]]]].
  pose proof (reaches_console n _ s1 w1 Hreach) as Hcons.
  change (console (entry w)) with (console w) in Hcons.
  change (console (finished s2 w2)) with (console w2).
  change (selectedArtworks (finished s2 w2)) with (selectedItems s2).
  exists s1, w1, s2, w2.
  destruct (iteration_done_inv n s1 w1 s2 w2 Hturn)
    as [[Hfail [Hs2 [msg Hw2]]]
       |[items [pagination [Hsrc [Hs2 [[Hraw [_ Hw2]]|[Hraw Hw2]]]]]]].
  - exists [ConsoleError msg].
    split; [exact Hreach|]. split; [exact Hturn|]. split; [reflexivity|].
    subst s2 w2. simpl. rewrite Hcons.
    split; [reflexivity|]. split; [lia|]. split; [lia|].
    split; [intros _; now exists msg|].
    intros items pagination Hsrc. rewrite Hsrc in Hfail. discriminate.
  - exists [ConsoleWarn "Not enough items available to fulfill the request."].
    split; [exact Hreach|]. split; [exact Hturn|]. split; [reflexivity|].
    subst s2 w2. simpl. rewrite Hcons.
    split; [reflexivity|]. split; [lia|]. split.
    + rewrite len_app.
      pose proof (len_slice0_le (filter (unseen (selectedItems s1)) items)
                    (n - len (selectedItems s1))).
      pose proof (len_filter_le (unseen (selectedItems s1)) items).
      lia.
    + split; [rewrite Hsrc; discriminate|].
      intros items' pagination' Heq. rewrite Hsrc in Heq.
      inversion Heq; subst.
      split; [reflexivity|intros Hge; exfalso; lia].
  - exists [].
    split; [exact Hreach|]. split; [exact Hturn|]. split; [reflexivity|].
    subst s2 w2. simpl. rewrite Hcons, app_nil_r.
    split; [reflexivity|]. split; [lia|]. split; [reflexivity|].
    split; [rewrite Hsrc; discriminate|].
    intros items' pagination' Heq. rewrite Hsrc in Heq.
    inversion Heq; subst.
    split; [intros Hshort; exfalso; lia|reflexivity].
Qed.

(** X4: a run of [handleSubmit] that returns has sent a request if and only
    if the input passed the validation. *)
Theorem handleSubmit_requests_iff_valid fuel w c w' :
  handleSubmit source fuel w = Some (c, w') ->
  (network w' <> network w <-> exists n, asks_for w n).
Proof.
  intros Hrun.
  destruct (isNaN (parseInt (inputValue w)) || leq0 (parseInt (inputValue w)))
    eqn:Hguard.
  - rewrite (handleSubmit_invalid source fuel w Hguard) in Hrun.
    inversion Hrun; subst. split.
    + intros Hne. now elim Hne.
    + intros [n Hask]. rewrite (asks_for_valid w n Hask) in Hguard.
      discriminate.
  - destruct (valid_asks_for w Hguard) as [n Hask].
    split; [intros _; now exists n|]. intros _.
    destruct (handleSubmit_run n fuel w c w' Hask Hrun)
      as [s1 [w1 [s2 [w2 [Hreach [_ [Hturn [_ ->]]]]]]]].
    destruct (handleSubmit_breaks source n w s1 w1 s2 w2 Hask Hreach Hturn
                (Z.to_nat (currentPageToFetch s1)) (le_n _)) as [_ Hnet].
    destruct (reaches_trace source n _ s1 w1 Hreach) as [k [Hpage _]].
    rewrite Hnet, Hpage, Nat2Z.id. intros Heq.
    apply (f_equal (@List.length NetEvent)) in Heq.
    rewrite length_app in Heq.
    unfold first_pages, exchanges in Heq.
    rewrite seq_S, map_app, flat_map_app, length_app in Heq.
    simpl in Heq. lia.
Qed.

(** ** The selection in terms of the pages fetched *)

Lemma fetched_pages_S k :
  fetched_pages source (S k)
  = fetched_pages source k ++ [page_items (source (Z.of_nat (S k)))].
Proof.
  unfold fetched_pages, first_pages. rewrite seq_S, !map_app. reflexivity.
Qed.

Lemma reaches_first_seen n w0 s w :
  pages_distinct source ->
  reaches source n w0 s w ->
  exists k,
    currentPageToFetch s = Z.of_nat (S k) /\
    selectedItems s = first_seen (List.concat (fetched_pages source k)).
Proof.
  intros Hpages. induction 1 as [|s w s' w' Hreach [k [Hpage Hsel]] Hlt Hturn].
  - exists O. split; reflexivity.
  - exists (S k).
    apply iteration_next_inv in Hturn.
    destruct Hturn as [items [pagination [Hsrc [Hraw [_ [-> _]]]]]].
    cbn [selectedItems currentPageToFetch].
    split; [rewrite Hpage; lia|].
    rewrite fetched_pages_S, <- Hpage, Hsrc, concat_snoc. simpl page_items.
    rewrite first_seen_page by (eapply Hpages; eassumption).
    rewrite <- Hsel. f_equal. apply slice0_all.
    pose proof (len_filter_le (unseen (selectedItems s)) items). lia.
Qed.

(** X5: when no page of the source lists an id twice, a walk that returns
    after requesting pages 1, ..., k has selected the first [n] distinct
    records of those pages (or all of them, when there are fewer), in the
    order in which the pages list them; a page whose fetch failed counts as
    empty.  This holds whatever has stopped the walk. *)
Theorem selection_is_first_seen n fuel w c w' :
  asks_for w n ->
  pages_distinct source ->
  handleSubmit source fuel w = Some (c, w') ->
  exists k,
    network w' = network w ++ exchanges source (first_pages k) /\
    selectedArtworks w'
    = firstn (Z.to_nat n)
        (first_seen (List.concat (fetched_pages source k))).
Proof.
  intros Hask Hpages Hrun.
  destruct (handleSubmit_run n fuel w c w' Hask Hrun)
    as [s1 [w1 [s2 [w2 [Hreach [Hlt [Hturn [_ ->]]]]]]]].
  destruct (reaches_first_seen n _ s1 w1 Hpages Hreach) as [k [Hpage Hsel]].
  exists (S k). split.
  - destruct (handleSubmit_breaks source n w s1 w1 s2 w2 Hask Hreach Hturn
                (Z.to_nat (currentPageToFetch s1)) (le_n _)) as [_ Hnet].
    rewrite Hnet, Hpage, Nat2Z.id. reflexivity.
  - change (selectedArtworks (finished s2 w2)) with (selectedItems s2).
    rewrite fetched_pages_S, <- Hpage, concat_snoc.
    destruct (iteration_done_inv n s1 w1 s2 w2 Hturn)
      as [[Hfail [-> _]]|[items [pagination [Hsrc [-> _]]]]].
    + assert (Hnone : page_items (source (currentPageToFetch s1)) = []).
      { destruct (source (currentPageToFetch s1)) as [|[|items pagination]];
          [reflexivity|reflexivity|discriminate]. }
      rewrite Hnone, app_nil_r, <- Hsel.
      symmetry. apply firstn_all2. unfold len in Hlt. lia.
    + rewrite Hsrc. simpl page_items. simpl selectedItems.
      rewrite first_seen_page by (eapply Hpages; eassumption).
      rewrite <- Hsel. symmetry. now apply firstn_over_app.
Qed.

(** ** A source that runs out *)

Lemma walk_short_pages (n : Z) (rest done_ : list (list Artwork)) (w : World) :
  rest <> [] ->
  serves source (1 + len done_) rest ->
  (forall items pagination,
      source (len done_ + len rest) = Fulfilled (Data items pagination) ->
      more_pages pagination = false) ->
  Forall distinct_ids rest ->
  (forall i items,
      nth_error rest i = Some items ->
      len items
      < n - len (first_seen (List.concat (done_ ++ firstn i rest)))) ->
  exists w' p,
    while_loop source (List.length rest) n
      (mkLocals (first_seen (List.concat done_)) (1 + len done_)) w
    = Some
        (Normal
           (mkLocals (first_seen (List.concat (done_ ++ rest))) p), w') /\
    len (first_seen (List.concat (done_ ++ rest))) < n /\
    console w'
    = console w
      ++ [ConsoleWarn "Not enough items available to fulfill the request."] /\
    network w'
    = network w
      ++ exchanges source
           (map Z.of_nat (seq (S (List.length done_)) (List.length rest))).
Proof.
  revert done_ w.
  induction rest as [|items rest IH]; intros done_ w Hne Hserve Hlast Hdist
    Hshort; [congruence|].
  destruct Hserve as [[pagination [Hsrc Hmore]] Hserve].
  inversion Hdist as [|x xs Hitems Hdist']; subst.
  set (acc := first_seen (List.concat done_)) in *.
  assert (Hpage : first_seen (List.concat (done_ ++ [items]))
                  = acc ++ filter (unseen acc) items).
  { rewrite concat_snoc. now apply first_seen_page. }
  pose proof (len_filter_le (unseen acc) items) as Hfresh.
  assert (Hraw : len items < n - len acc).
  { specialize (Hshort O items). simpl in Hshort.
    rewrite app_nil_r in Hshort. now apply Hshort. }
  assert (Hacc : len acc < n).
  { unfold len in *. lia. }
  assert (Hcursor : Z.of_nat (S (List.length done_)) = 1 + len done_).
  { unfold len. lia. }
  change (List.length (items :: rest)) with (S (List.length rest)).
  rewrite while_loop_turn by exact Hacc.
  rewrite (iteration_data source n (mkLocals acc (1 + len done_)) w items
             pagination Hsrc).
  cbn beta zeta iota delta [selectedItems currentPageToFetch].
  destruct (Z.ltb_spec (len items) (n - len acc)) as [_|Hge]; [|lia].
  rewrite slice0_all by lia. rewrite <- Hpage.
  destruct rest as [|next rest].
  - (* the last page reports that nothing follows *)
    rewrite (Hlast items pagination).
    + do 2 eexists. split; [reflexivity|].
      split; [rewrite Hpage, len_app; lia|]. split; [reflexivity|].
      etransitivity;
        [exact (network_exchanged source (1 + len done_) w)|].
      cbn [List.length seq map]. now rewrite Hcursor.
    + rewrite <- Hsrc. f_equal. unfold len. cbn [List.length]. lia.
  - rewrite Hmore by discriminate.
    replace (1 + len done_ + 1) with (1 + len (done_ ++ [items]))
      by (rewrite len_snoc; lia).
    replace (done_ ++ items :: next :: rest)
      with ((done_ ++ [items]) ++ next :: rest)
      by (now rewrite <- app_assoc).
    destruct (IH (done_ ++ [items])
                (exchanged source (1 + len done_) w))
      as [w' [p [Hrun [Hlen [Hcons Hnet]]]]].
    + discriminate.
    + replace (1 + len (done_ ++ [items])) with (1 + len done_ + 1)
        by (rewrite len_snoc; lia).
      exact Hserve.
    + intros items' pagination' Hsrc'. apply (Hlast items' pagination').
      rewrite <- Hsrc'. f_equal. unfold len.
      rewrite length_app. cbn [List.length]. lia.
    + exact Hdist'.
    + intros i items' Hnth. rewrite <- app_assoc. simpl.
      exact (Hshort (S i) items' Hnth).
    + exists w', p. split; [exact Hrun|]. split; [exact Hlen|].
      split; [exact Hcons|].
      rewrite Hnet, network_exchanged, <- app_assoc. f_equal.
      rewrite length_app, Nat.add_1_r.
      change (seq (S (List.length done_))
                (List.length (items :: next :: rest)))
        with (S (List.length done_)
              :: seq (S (S (List.length done_)))
                   (List.length (next :: rest))).
      unfold exchanges. cbn [seq map flat_map app].
      rewrite Hcursor. reflexivity.
Qed.

(** X6: when pages 1..k are served, every one of them shorter than what was
    still needed when it arrived, none listing an id twice, and page k
    reports that no page follows, then [handleSubmit] returns after the
    requests for pages 1, ..., k and no other, with every distinct record
    of those pages, fewer than asked for, and with one warning on the
    console. *)
Theorem walk_exhausts_source (pages : list (list Artwork)) (n : Z) (w : World) :
  asks_for w n ->
  pages <> [] ->
  serves source 1 pages ->
  (forall items pagination,
      source (len pages) = Fulfilled (Data items pagination) ->
      more_pages pagination = false) ->
  Forall distinct_ids pages ->
  all_short n pages ->
  exists w',
    handleSubmit source (List.length pages) w = Some (Normal tt, w') /\
    selectedArtworks w' = first_seen (List.concat pages) /\
    len (selectedArtworks w') < n /\
    console w'
    = console w
      ++ [ConsoleWarn "Not enough items available to fulfill the request."] /\
    network w'
    = network w ++ exchanges source (first_pages (List.length pages)).
Proof.
  intros Hask Hne Hserve Hlast Hdist Hshort.
  destruct (walk_short_pages n pages [] (entry w) Hne Hserve Hlast Hdist
              Hshort) as [w2 [p [Hrun [Hlen [Hcons Hnet]]]]].
  rewrite (handleSubmit_valid source _ w n Hask).
  simpl in Hrun. rewrite Hrun.
  eexists. split; [reflexivity|]. split; [reflexivity|].
  split; [exact Hlen|]. split; [exact Hcons|exact Hnet].
Qed.

(** ** Asking for more *)

Lemma while_loop_extends fuel n s w c w' :
  while_loop source fuel n s w = Some (c, w') ->
  exists s' extra,
    c = Normal s' /\ selectedItems s' = selectedItems s ++ extra.
Proof.
  revert s w. induction fuel as [|fuel IH]; intros s w Hrun.
  - destruct (Z.lt_ge_cases (len (selectedItems s)) n) as [Hlt|Hge].
    + rewrite while_loop_dry in Hrun by assumption. discriminate.
    + rewrite while_loop_exit in Hrun by assumption. inversion Hrun; subst.
      exists s, []. now rewrite app_nil_r.
  - destruct (Z.lt_ge_cases (len (selectedItems s)) n) as [Hlt|Hge].
    + rewrite while_loop_turn in Hrun by assumption.
      destruct (iteration_shape source n s w) as [st [w1 [Heq _]]].
      destruct (iteration_extends source n s w st w1 Heq) as [e1 He1].
      rewrite Heq in Hrun. destruct st as [s1|s1]; simpl in He1.
      * destruct (IH s1 w1 Hrun) as [s' [e2 [-> He2]]].
        exists s', (e1 ++ e2). split; [reflexivity|].
        now rewrite He2, He1, app_assoc.
      * inversion Hrun; subst. exists s1, e1. now split.
    + rewrite while_loop_exit in Hrun by assumption. inversion Hrun; subst.
      exists s, []. now rewrite app_nil_r.
Qed.

Lemma slice0_prefix_of_larger {A : Type} (l : list A) (a b : Z) :
  0 <= a <= b -> exists extra, slice0 l b = slice0 l a ++ extra.
Proof.
  intros Hab. rewrite !slice0_nonneg by lia.
  exists (skipn (Z.to_nat a) (firstn (Z.to_nat b) l)).
  rewrite <- (firstn_skipn (Z.to_nat a) (firstn (Z.to_nat b) l)) at 1.
  f_equal. rewrite firstn_firstn. f_equal. lia.
Qed.

Lemma while_loop_prefix n m :
  n <= m ->
  forall fuel1 fuel2 s w1 w2 c1 w1' c2 w2',
    while_loop source fuel1 n s w1 = Some (c1, w1') ->
    while_loop source fuel2 m s w2 = Some (c2, w2') ->
    exists s1 s2 extra,
      c1 = Normal s1 /\ c2 = Normal s2 /\
      selectedItems s2 = selectedItems s1 ++ extra.
Proof.
  intros Hnm.
  induction fuel1 as [|fuel1 IH]; intros fuel2 s w1 w2 c1 w1' c2 w2' Hrun1
    Hrun2.
  - destruct (Z.lt_ge_cases (len (selectedItems s)) n) as [Hlt|Hge].
    + rewrite while_loop_dry in Hrun1 by assumption. discriminate.
    + rewrite while_loop_exit in Hrun1 by assumption.
      inversion Hrun1; subst.
      destruct (while_loop_extends _ _ _ _ _ _ Hrun2) as [s2 [e [-> He]]].
      exists s, s2, e. repeat split. exact He.
  - destruct (Z.lt_ge_cases (len (selectedItems s)) n) as [Hlt|Hge].
    2:{ rewrite while_loop_exit in Hrun1 by assumption.
        inversion Hrun1; subst.
        destruct (while_loop_extends _ _ _ _ _ _ Hrun2) as [s2 [e [-> He]]].
        exists s, s2, e. repeat split. exact He. }
    destruct fuel2 as [|fuel2];
      [rewrite while_loop_dry in Hrun2 by lia; discriminate|].
    rewrite while_loop_turn in Hrun1 by assumption.
    rewrite while_loop_turn in Hrun2 by lia.
    destruct (source (currentPageToFetch s)) as [|[|items pagination]]
      eqn:Hsrc.
    + rewrite (iteration_rejected source n s w1 Hsrc) in Hrun1.
      rewrite (iteration_rejected source m s w2 Hsrc) in Hrun2.
      inversion Hrun1; inversion Hrun2; subst.
      exists s, s, []. repeat split. now rewrite app_nil_r.
    + rewrite (iteration_nodata source n s w1 Hsrc) in Hrun1.
      rewrite (iteration_nodata source m s w2 Hsrc) in Hrun2.
      inversion Hrun1; inversion Hrun2; subst.
      exists s, s, []. repeat split. now rewrite app_nil_r.
    + rewrite (iteration_data source n s w1 items pagination Hsrc) in Hrun1.
      rewrite (iteration_data source m s w2 items pagination Hsrc) in Hrun2.
      cbv zeta in Hrun1, Hrun2.
      pose proof (len_filter_le (unseen (selectedItems s)) items) as Hfresh.
      destruct (Z.ltb_spec (len items) (n - len (selectedItems s)))
        as [Hraw|Hraw].
      * (* too short for both: the two turns agree *)
        destruct (Z.ltb_spec (len items) (m - len (selectedItems s)))
          as [_|Hge]; [|lia].
        rewrite (slice0_all _ (n - len (selectedItems s))) in Hrun1 by lia.
        rewrite (slice0_all _ (m - len (selectedItems s))) in Hrun2 by lia.
        destruct (more_pages pagination).
        -- exact (IH _ _ _ _ _ _ _ _ Hrun1 Hrun2).
        -- inversion Hrun1; inversion Hrun2; subst.
           do 2 eexists. exists []. repeat split. now rewrite app_nil_r.
      * (* enough for the smaller target: its walk ends here *)
        inversion Hrun1; subst c1 w1'.
        destruct (slice0_prefix_of_larger
                    (filter (unseen (selectedItems s)) items)
                    (n - len (selectedItems s)) (m - len (selectedItems s)))
          as [e1 He1]; [lia|].
        assert (Hrest : exists s2 e2,
                   c2 = Normal s2 /\
                   selectedItems s2
                   = (selectedItems s
                      ++ slice0 (filter (unseen (selectedItems s)) items)
                           (m - len (selectedItems s))) ++ e2).
        { destruct (len items <? m - len (selectedItems s));
            [destruct (more_pages pagination)|].
          - destruct (while_loop_extends _ _ _ _ _ _ Hrun2)
              as [s2 [e2 [-> He2]]].
            exists s2, e2. split; [reflexivity|exact He2].
          - inversion Hrun2; subst. eexists. exists [].
            split; [reflexivity|]. simpl. now rewrite app_nil_r.
          - inversion Hrun2; subst. eexists. exists [].
            split; [reflexivity|]. simpl. now rewrite app_nil_r. }
        destruct Hrest as [s2 [e2 [-> He2]]].
        eexists. exists s2, (e1 ++ e2). split; [reflexivity|].
        split; [reflexivity|].
        rewrite He2, He1. simpl. now rewrite <- !app_assoc.
Qed.

(** X7: asking for more keeps what a smaller request selects: when the
    walks for [n] and for [m >= n] over the same source both return, the
    selection for [n] is the beginning of the selection for [m]. *)
Theorem asking_for_more_extends n m fuel1 fuel2 w1 w2 c1 c2 w1' w2' :
  asks_for w1 n ->
  asks_for w2 m ->
  n <= m ->
  handleSubmit source fuel1 w1 = Some (c1, w1') ->
  handleSubmit source fuel2 w2 = Some (c2, w2') ->
  exists extra, selectedArtworks w2' = selectedArtworks w1' ++ extra.
Proof.
  intros Hask1 Hask2 Hnm Hrun1 Hrun2.
  rewrite (handleSubmit_valid source fuel1 w1 n Hask1) in Hrun1.
  rewrite (handleSubmit_valid source fuel2 w2 m Hask2) in Hrun2.
  destruct (while_loop source fuel1 n (mkLocals [] 1) (entry w1))
    as [[d1 x1]|] eqn:Hloop1; [|discriminate].
  destruct (while_loop source fuel2 m (mkLocals [] 1) (entry w2))
    as [[d2 x2]|] eqn:Hloop2; [|discriminate].
  destruct (while_loop_prefix n m Hnm _ _ _ _ _ _ _ _ _ Hloop1 Hloop2)
    as [s1 [s2 [extra [-> [-> Hext]]]]].
  inversion Hrun1; inversion Hrun2; subst.
  exists extra. exact Hext.
Qed.

(** ** fetchArtworks, reply by reply *)

Lemma inputValue_fetchArtworks page w :
  inputValue (snd (fetchArtworks source page w)) = inputValue w.
Proof.
  destruct (source page) as [|[|items [pg|]]] eqn:Hsrc.
  - now rewrite (fetchArtworks_rejected source page w Hsrc).
  - now rewrite (fetchArtworks_nodata source page w Hsrc).
  - now rewrite (fetchArtworks_page source page w items pg Hsrc).
  - now rewrite (fetchArtworks_no_pagination source page w items Hsrc).
Qed.

(** X8: whatever the reply, [fetchArtworks] returns normally with the
    loading flag cleared, after exactly one request, for the page it was
    given; it writes at most one entry to the console and it never touches
    the selection, the input text or the overlay. *)
Theorem fetchArtworks_frame page w :
  exists w' entries,
    fetchArtworks source page w = (Normal tt, w') /\
    loading w' = false /\
    network w' = network w ++ [Request page; Response page (source page)] /\
    console w' = console w ++ entries /\
    (List.length entries <= 1)%nat /\
    selectedArtworks w' = selectedArtworks w /\
    inputValue w' = inputValue w /\
    overlayLoading w' = overlayLoading w /\
    overlayShown w' = overlayShown w.
Proof.
  assert (Hnet : network (snd (fetchArtworks source page w))
                 = network w ++ [Request page; Response page (source page)])
    by exact (network_fetchArtworks source page w).
  revert Hnet.
  destruct (source page) as [|[|items [pg|]]] eqn:Hsrc.
  - rewrite (fetchArtworks_rejected source page w Hsrc). intros Hnet.
    eexists. exists [ConsoleError "Error fetching artworks:"].
    split; [reflexivity|]. split; [reflexivity|]. split; [exact Hnet|].
    repeat split. simpl. lia.
  - rewrite (fetchArtworks_nodata source page w Hsrc). intros Hnet.
    eexists. exists []. split; [reflexivity|]. split; [reflexivity|].
    split; [exact Hnet|]. split; [simpl; now rewrite app_nil_r|].
    repeat split. simpl. lia.
  - rewrite (fetchArtworks_page source page w items pg Hsrc). intros Hnet.
    eexists. exists []. split; [reflexivity|]. split; [reflexivity|].
    split; [exact Hnet|]. split; [simpl; now rewrite app_nil_r|].
    repeat split. simpl. lia.
  - rewrite (fetchArtworks_no_pagination source page w items Hsrc).
    intros Hnet.
    eexists. exists [ConsoleError "Error fetching artworks:"].
    split; [reflexivity|]. split; [reflexivity|]. split; [exact Hnet|].
    repeat split. simpl. lia.
Qed.

(** X9: a payload with rows and pagination puts the rows on display and
    takes total and current page from the pagination; nothing is logged. *)
Theorem fetchArtworks_shows_page page w items pg :
  source page = Fulfilled (Data items (Some pg)) ->
  artworks (snd (fetchArtworks source page w)) = items /\
  totalRecords (snd (fetchArtworks source page w)) = total pg /\
  currentPage (snd (fetchArtworks source page w)) = current_page pg /\
  console (snd (fetchArtworks source page w)) = console w.
Proof.
  intros Hsrc. rewrite (fetchArtworks_page source page w items pg Hsrc).
  repeat split.
Qed.

(** X10: a payload with rows but without pagination leaves the view half
    updated: the rows are replaced, total and current page stay, and the
    error of reading the missing pagination is logged. *)
Theorem fetchArtworks_without_pagination page w items :
  source page = Fulfilled (Data items None) ->
  artworks (snd (fetchArtworks source page w)) = items /\
  totalRecords (snd (fetchArtworks source page w)) = totalRecords w /\
  currentPage (snd (fetchArtworks source page w)) = currentPage w /\
  console (snd (fetchArtworks source page w))
  = console w ++ [ConsoleError "Error fetching artworks:"] /\
  loading (snd (fetchArtworks source page w)) = false.
Proof.
  intros Hsrc. rewrite (fetchArtworks_no_pagination source page w items Hsrc).
  repeat split.
Qed.

(** X11: fetching the same page again, with the same reply, changes nothing
    in the React state. *)
Theorem fetchArtworks_idempotent page w :
  ui (snd (fetchArtworks source page
             (snd (fetchArtworks source page w))))
  = ui (snd (fetchArtworks source page w)).
Proof.
  destruct (source page) as [|[|items [pg|]]] eqn:Hsrc.
  - now rewrite !(fetchArtworks_rejected source page _ Hsrc).
  - now rewrite !(fetchArtworks_nodata source page _ Hsrc).
  - now rewrite !(fetchArtworks_page source page _ items pg Hsrc).
  - now rewrite !(fetchArtworks_no_pagination source page _ items Hsrc).
Qed.

(** X12: a page fetch and a walk do not get in each other's way: the React
    state is the same whether [fetchArtworks] runs before the walk or after
    it. *)
Theorem fetch_and_walk_commute n fuel page w c w1 :
  asks_for w n ->
  handleSubmit source fuel w = Some (c, w1) ->
  exists w2,
    handleSubmit source fuel (snd (fetchArtworks source page w))
    = Some (c, w2) /\
    ui w2 = ui (snd (fetchArtworks source page w1)).
Proof.
  intros Hask Hrun.
  rewrite (handleSubmit_valid source fuel w n Hask) in Hrun.
  destruct (while_loop source fuel n (mkLocals [] 1) (entry w))
    as [[c0 x]|] eqn:Hloop; [|discriminate].
  destruct (while_loop_extends _ _ _ _ _ _ Hloop) as [s [_ [-> _]]].
  inversion Hrun; subst c w1.
  assert (Hask' : asks_for (snd (fetchArtworks source page w)) n).
  { unfold asks_for. rewrite inputValue_fetchArtworks. exact Hask. }
  rewrite (handleSubmit_valid source fuel _ n Hask').
  destruct (while_loop_indep source fuel n (mkLocals [] 1) (entry w)
              (entry (snd (fetchArtworks source page w))) _ _ Hloop)
    as [x' Hloop'].
  rewrite Hloop'. eexists. split; [reflexivity|].
  destruct (while_loop_returns source fuel n _ _ _ _ x'
              (reaches_start source n _) Hloop')
    as [s1 [y1 [Hreach1 Hend1]]].
  assert (Hui' : ui x' = ui (entry (snd (fetchArtworks source page w)))).
  { destruct (reaches_trace source n _ s1 y1 Hreach1) as [k [_ [_ [Hu _]]]].
    destruct Hend1 as [[_ [_ ->]]|[_ [s2 [Hturn _]]]]; [exact Hu|].
    destruct (iteration_shape source n s1 y1) as [st [y2 [Heq [Hu2 _]]]].
    rewrite Heq in Hturn. inversion Hturn; subst. congruence. }
  destruct (while_loop_returns source fuel n _ _ _ _ x
              (reaches_start source n _) Hloop)
    as [s0 [y0 [Hreach0 Hend0]]].
  assert (Hui : ui x = ui (entry w)).
  { destruct (reaches_trace source n _ s0 y0 Hreach0) as [k [_ [_ [Hu _]]]].
    destruct Hend0 as [[_ [_ ->]]|[_ [s2 [Hturn _]]]]; [exact Hu|].
    destruct (iteration_shape source n s0 y0) as [st [y2 [Heq [Hu2 _]]]].
    rewrite Heq in Hturn. inversion Hturn; subst. congruence. }
  unfold ui in Hui, Hui'. simpl in Hui, Hui'.
  inversion Hui; inversion Hui'.
  destruct (source page) as [|[|items [pg|]]] eqn:Hsrc.
  - rewrite !(fetchArtworks_rejected source page _ Hsrc) in *.
    unfold ui. simpl in *. congruence.
  - rewrite !(fetchArtworks_nodata source page _ Hsrc) in *.
    unfold ui. simpl in *. congruence.
  - rewrite !(fetchArtworks_page source page _ items pg Hsrc) in *.
    unfold ui. simpl in *. congruence.
  - rewrite !(fetchArtworks_no_pagination source page _ items Hsrc) in *.
    unfold ui. simpl in *. congruence.
Qed.

(** ** Signed input *)

Lemma digits10_nonneg (s : JSString) : Forall (fun d => 0 <= d) (digits10 s).
Proof.
  induction s as [|u rest IH]; simpl; [constructor|].
  unfold digit10. destruct ((48 <=? u) && (u <=? 57))%N; constructor.
  - apply N2Z.is_nonneg.
  - exact IH.
Qed.

Lemma decimal_nonneg (ds : list Z) :
  Forall (fun d => 0 <= d) ds -> 0 <= decimal ds.
Proof.
  unfold decimal. intros Hds.
  assert (Hfold : forall acc, 0 <= acc ->
                    0 <= fold_left (fun acc d => 10 * acc + d) ds acc).
  { induction Hds as [|d ds Hd Hds IH]; intros acc Hacc;
      cbn [fold_left]; [exact Hacc|].
    cbv beta in Hd. apply IH. lia. }
  apply Hfold. lia.
Qed.

(** X13: an input whose first character after leading white space is a
    minus sign never passes the validation, whatever follows the sign: the
    validation error is logged and no request is sent. *)
Theorem minus_sign_rejected fuel w rest :
  trimStart (inputValue w) = 45%N :: rest ->
  exists w',
    handleSubmit source fuel w = Some (Normal tt, w') /\
    network w' = network w /\
    console w'
    = console w
      ++ [ConsoleError "Invalid input. Please enter a positive number."].
Proof.
  intros Htrim.
  rewrite (handleSubmit_invalid source fuel w).
  - eexists. split; [reflexivity|]. split; reflexivity.
  - unfold parseInt. rewrite Htrim.
    cbv beta iota zeta.
    pose proof (decimal_nonneg _ (digits10_nonneg rest)) as Hnonneg.
    destruct (digits10 rest) as [|d ds]; [reflexivity|].
    simpl isNaN. simpl orb. unfold leq0. apply Z.leb_le.
    destruct (decimal (d :: ds)); lia.
Qed.

(** ** The rendered tree *)

(** X14: the paginator round trip.  When the table reports a change to the
    zero-based page [p] and the source answers the request with rows and
    with [current_page = p + 1], the next render hands the table those
    rows and the offset [p * rowsPerPage], with the page spinner off. *)
Theorem render_after_page_change (first_ rows_ p : Z) (w : World) items pg :
  source (p + 1) = Fulfilled (Data items (Some pg)) ->
  current_page pg = p + 1 ->
  Table.first
    (table (render (snd (onPageChange source
                           (mkEvent first_ rows_ (Some p)) w))))
  = p * rowsPerPage /\
  Table.value
    (table (render (snd (onPageChange source
                           (mkEvent first_ rows_ (Some p)) w))))
  = items /\
  Table.totalRecords
    (table (render (snd (onPageChange source
                           (mkEvent first_ rows_ (Some p)) w))))
  = total pg /\
  pageSpinner (render (snd (onPageChange source
                              (mkEvent first_ rows_ (Some p)) w)))
  = false.
Proof.
  intros Hsrc Hcur.
  change (onPageChange source (mkEvent first_ rows_ (Some p)) w)
    with (fetchArtworks source (p + 1) w).
  rewrite (fetchArtworks_page source (p + 1) w items pg Hsrc).
  unfold render. simpl. rewrite Hcur. repeat split. lia.
Qed.

(** ** Keys of the list of selected artworks *)

Lemma dash_in_append (s t : string) :
  In "-"%char (list_ascii_of_string (s ++ String "-" t)).
Proof.
  induction s as [|c s IH]; simpl; [now left|now right].
Qed.

(** Two strings that end in a dash followed by dash-free text agree on that
    text when they are equal. *)
Lemma append_dash_tail (s1 s2 t1 t2 : string) :
  ~ In "-"%char (list_ascii_of_string t1) ->
  ~ In "-"%char (list_ascii_of_string t2) ->
  (s1 ++ String "-" t1)%string = (s2 ++ String "-" t2)%string ->
  t1 = t2.
Proof.
  intros Ht1 Ht2. revert s2.
  induction s1 as [|c1 s1 IH]; intros [|c2 s2] Heq; simpl in Heq.
  - now inversion Heq.
  - inversion Heq; subst. elim Ht1. apply dash_in_append.
  - inversion Heq; subst. elim Ht2. apply dash_in_append.
  - inversion Heq; subst. now apply (IH s2).
Qed.

Lemma no_dash_uint (d : Decimal.uint) :
  ~ In "-"%char
      (list_ascii_of_string (DecimalString.NilEmpty.string_of_uint d)).
Proof.
  induction d; simpl; intros H; try contradiction;
    destruct H as [H|H]; try discriminate; contradiction.
Qed.

Lemma no_dash_index (index : nat) :
  ~ In "-"%char (list_ascii_of_string (numberToString (Z.of_nat index))).
Proof.
  unfold numberToString.
  destruct (Z.of_nat index) as [|p|p] eqn:Hz; simpl;
    [| apply no_dash_uint | lia].
  intros [H|[]]. discriminate.
Qed.

Lemma numberToString_inj (a b : Z) :
  numberToString a = numberToString b -> a = b.
Proof.
  unfold numberToString. intros Heq.
  apply (f_equal DecimalString.NilEmpty.int_of_string) in Heq.
  rewrite !DecimalString.NilEmpty.isi in Heq. inversion Heq as [Hint].
  apply (f_equal Z.of_int) in Hint. now rewrite !DecimalZ.of_to in Hint.
Qed.

(** The key of a list item tells its index. *)
Lemma item_key_index (a b : Z) (i j : nat) :
  (numberToString a ++ "-" ++ numberToString (Z.of_nat i))%string
  = (numberToString b ++ "-" ++ numberToString (Z.of_nat j))%string ->
  i = j.
Proof.
  intros Heq. simpl in Heq.
  apply append_dash_tail in Heq; try apply no_dash_index.
  apply numberToString_inj in Heq. lia.
Qed.

Lemma map_from_keys (l : list Artwork) (start : nat) (k : string) :
  In k
    (map key
       (map_from
          (fun artwork index =>
             mkListItem
               (numberToString (id artwork) ++ "-"
                ++ numberToString (Z.of_nat index))
               (title artwork))
          start l)) ->
  exists a index,
    (start <= index)%nat /\
    k = (numberToString a ++ "-" ++ numberToString (Z.of_nat index))%string.
Proof.
  revert start. induction l as [|x l IH]; intros start Hin; simpl in Hin.
  - contradiction.
  - destruct Hin as [<-|Hin].
    + exists (id x), start. split; [lia|reflexivity].
    + destruct (IH (S start) Hin) as [a [index [Hle Hk]]].
      exists a, index. split; [lia|exact Hk].
Qed.

Lemma map_from_text (l : list Artwork) (start : nat) :
  map text
    (map_from
       (fun artwork index =>
          mkListItem
            (numberToString (id artwork) ++ "-"
             ++ numberToString (Z.of_nat index))
            (title artwork))
       start l)
  = map title l.
Proof.
  revert start. induction l as [|x l IH]; intros start; simpl;
    [reflexivity|]. now rewrite IH.
Qed.

Lemma map_from_keys_distinct (l : list Artwork) (start : nat) :
  NoDup
    (map key
       (map_from
          (fun artwork index =>
             mkListItem
               (numberToString (id artwork) ++ "-"
                ++ numberToString (Z.of_nat index))
               (title artwork))
          start l)).
Proof.
  revert start. induction l as [|x l IH]; intros start.
  - constructor.
  - cbn [map_from map key]. constructor; [|apply IH].
    intros Hin. apply map_from_keys in Hin.
    destruct Hin as [a [index [Hle Hk]]].
    apply item_key_index in Hk. lia.
Qed.

(** X15: when the list of selected artworks is rendered, no two of its
    items have the same React key, also when the selection holds an id
    twice; the items show the titles of the selection in its order. *)
Theorem selected_list_keys_distinct (w : World) (items : list ListItem) :
  selectedList (render w) = Some items ->
  NoDup (map key items) /\
  map text items = map title (selectedArtworks w).
Proof.
  unfold render. cbn [selectedList].
  destruct (0 <? len (selectedArtworks w)); [|discriminate].
  intros Heq. inversion Heq; subst. unfold map_with_index. split.
  - apply map_from_keys_distinct.
  - apply map_from_text.
Qed.

End Further.

(** * Further scenarios *)

(** X1 with rows 1 and 3 ticked and two records asked for. *)
Lemma handleSubmit_keeps_view_browsing :
  exists w',
    handleSubmit gallery 1 browsing = Some (Normal tt, w') /\
    artworks w' = [art 1; art 2; art 3] /\
    totalRecords w' = 36 /\
    currentPage w' = 1 /\
    loading w' = false /\
    inputValue w' = units "2".
Proof.
  pose proof (handleSubmit_keeps_view gallery 1 browsing (Normal tt)) as Hview.
  remember (handleSubmit gallery 1 browsing) as r eqn:Hr.
  vm_compute in Hr. subst r.
  destruct (Hview _ eq_refl) as [_ Hkept].
  eexists. split; [reflexivity|exact Hkept].
Defined.

(** X2 on the overlapping pages. *)
Lemma handleSubmit_bounded_overlapping :
  exists w',
    handleSubmit overlapping 2 (withInput "4") = Some (Normal tt, w') /\
    overlayLoading w' = false /\
    overlayShown w' = false /\
    len (selectedArtworks w') <= 4.
Proof.
  pose proof (handleSubmit_bounded overlapping 4 2 (withInput "4")
                (Normal tt)) as Hbound.
  remember (handleSubmit overlapping 2 (withInput "4")) as r eqn:Hr.
  vm_compute in Hr. subst r.
  eexists. split; [reflexivity|].
  exact (Hbound _ (conj eq_refl eq_refl) eq_refl).
Defined.

(** X3 on the overlapping pages: the walk stops on page 2 with three of the
    four records asked for, and the console stays empty. *)
Lemma handleSubmit_logs_once_overlapping :
  exists w',
    handleSubmit overlapping 2 (withInput "4") = Some (Normal tt, w') /\
    len (selectedArtworks w') < 4 /\
    console w' = [].
Proof.
  pose proof (handleSubmit_logs_once overlapping 4 2 (withInput "4")
                (Normal tt)) as Hlog.
  remember (handleSubmit overlapping 2 (withInput "4")) as r eqn:Hr.
  vm_compute in Hr. subst r.
  destruct (Hlog _ (conj eq_refl eq_refl) eq_refl)
    as [s1 [w1 [s2 [w2 [entries [_ [_ [_ [Hcons _]]]]]]]]].
  eexists. split; [reflexivity|]. split; reflexivity.
Defined.

(** X4 on an input without digits, and on one that asks for twenty. *)
Lemma handleSubmit_requests_iff_valid_gallery :
  exists w1 w2,
    handleSubmit gallery 2 (withInput "abc") = Some (Normal tt, w1) /\
    (network w1 <> network (withInput "abc")
     <-> exists n, asks_for (withInput "abc") n) /\
    handleSubmit gallery 2 (withInput "20") = Some (Normal tt, w2) /\
    (network w2 <> network (withInput "20")
     <-> exists n, asks_for (withInput "20") n).
Proof.
  pose proof (handleSubmit_requests_iff_valid gallery 2 (withInput "abc")
                (Normal tt)) as Hbad.
  pose proof (handleSubmit_requests_iff_valid gallery 2 (withInput "20")
                (Normal tt)) as Hgood.
  remember (handleSubmit gallery 2 (withInput "abc")) as r1 eqn:Hr1.
  remember (handleSubmit gallery 2 (withInput "20")) as r2 eqn:Hr2.
  vm_compute in Hr1, Hr2. subst r1 r2.
  do 2 eexists.
  split; [reflexivity|]. split; [exact (Hbad _ eq_refl)|].
  split; [reflexivity|exact (Hgood _ eq_refl)].
Defined.

(** X5 on the overlapping pages: the first four distinct records of pages 1
    and 2 are the three that there are. *)
Lemma selection_is_first_seen_overlapping :
  exists w' k,
    handleSubmit overlapping 2 (withInput "4") = Some (Normal tt, w') /\
    network w' = [] ++ exchanges overlapping (first_pages k) /\
    selectedArtworks w'
    = firstn 4 (first_seen (List.concat (fetched_pages overlapping k))).
Proof.
  pose proof (selection_is_first_seen overlapping 4 2 (withInput "4")
                (Normal tt)) as Hsel.
  remember (handleSubmit overlapping 2 (withInput "4")) as r eqn:Hr.
  vm_compute in Hr. subst r.
  destruct (Hsel _ (conj eq_refl eq_refl) overlapping_pages_distinct eq_refl)
    as [k [Hnet Hfirst]].
  eexists. exists k. split; [reflexivity|]. split; assumption.
Defined.

(** X6 on the gallery: a hundred records are asked for, its three pages
    hold thirty-six. *)
Lemma walk_exhausts_source_gallery :
  exists w',
    handleSubmit gallery 3 (withInput "100") = Some (Normal tt, w') /\
    selectedArtworks w' = arts 1 36 /\
    len (selectedArtworks w') < 100 /\
    console w'
    = [ConsoleWarn "Not enough items available to fulfill the request."] /\
    network w'
    = [Request 1; Response 1 (gallery 1);
       Request 2; Response 2 (gallery 2);
       Request 3; Response 3 (gallery 3)].
Proof.
  destruct (walk_exhausts_source gallery
              [arts 1 12; arts 13 12; arts 25 12] 100 (withInput "100"))
    as [w' [Hrun [Hsel [Hlen [Hcons Hnet]]]]].
  - split; [reflexivity|lia].
  - discriminate.
  - simpl. repeat split; eexists; (split; [reflexivity|]);
      intros Hrest; first [reflexivity|now elim Hrest].
  - intros items pagination Heq. inversion Heq. reflexivity.
  - apply Forall_cons; [|apply Forall_cons; [|apply Forall_cons;
                                               [|apply Forall_nil]]];
      apply distinct_by_first_seen; reflexivity.
  - intros i items Hnth. destruct i as [|[|[|i]]];
      try (inversion Hnth; subst; reflexivity).
    destruct i; discriminate.
  - exists w'. split; [exact Hrun|]. split; [exact Hsel|].
    split; [exact Hlen|]. split; [exact Hcons|exact Hnet].
Defined.

(** X7 on the gallery: the two records selected for "2" head the twenty
    selected for "20". *)
Lemma asking_for_more_extends_gallery :
  exists w1 w2 extra,
    handleSubmit gallery 1 browsing = Some (Normal tt, w1) /\
    handleSubmit gallery 2 (withInput "20") = Some (Normal tt, w2) /\
    selectedArtworks w2 = selectedArtworks w1 ++ extra.
Proof.
  pose proof (asking_for_more_extends gallery 2 20 1 2 browsing
                (withInput "20") (Normal tt) (Normal tt)) as Hmore.
  remember (handleSubmit gallery 1 browsing) as r1 eqn:Hr1.
  remember (handleSubmit gallery 2 (withInput "20")) as r2 eqn:Hr2.
  vm_compute in Hr1, Hr2. subst r1 r2.
  destruct (Hmore _ _ (conj eq_refl eq_refl) (conj eq_refl eq_refl)
              ltac:(lia) eq_refl eq_refl) as [extra Hext].
  do 2 eexists. exists extra.
  split; [reflexivity|]. split; [reflexivity|exact Hext].
Defined.

(** X9 on page 2 of the gallery. *)
Lemma fetchArtworks_shows_page_gallery :
  artworks (snd (fetchArtworks gallery 2 browsing)) = arts 13 12 /\
  totalRecords (snd (fetchArtworks gallery 2 browsing)) = 36 /\
  currentPage (snd (fetchArtworks gallery 2 browsing)) = 2 /\
  console (snd (fetchArtworks gallery 2 browsing)) = [].
Proof.
  exact (fetchArtworks_shows_page gallery 2 browsing (arts 13 12)
           (mkPagination 36 2 3) eq_refl).
Defined.

(** X10 on a payload without pagination: rows 7 and 8 are shown under the
    total and the page of before. *)
Lemma fetchArtworks_without_pagination_unpaged :
  artworks (snd (fetchArtworks unpaged 1 browsing)) = [art 7; art 8] /\
  totalRecords (snd (fetchArtworks unpaged 1 browsing)) = 36 /\
  currentPage (snd (fetchArtworks unpaged 1 browsing)) = 1 /\
  console (snd (fetchArtworks unpaged 1 browsing))
  = [ConsoleError "Error fetching artworks:"] /\
  loading (snd (fetchArtworks unpaged 1 browsing)) = false.
Proof.
  exact (fetchArtworks_without_pagination unpaged 1 browsing [art 7; art 8]
           eq_refl).
Defined.

(** X12 on the gallery: page 2 is fetched before or after the walk for two
    records. *)
Lemma fetch_and_walk_commute_gallery :
  exists w1 w2,
    handleSubmit gallery 1 browsing = Some (Normal tt, w1) /\
    handleSubmit gallery 1 (snd (fetchArtworks gallery 2 browsing))
    = Some (Normal tt, w2) /\
    ui w2 = ui (snd (fetchArtworks gallery 2 w1)).
Proof.
  pose proof (fetch_and_walk_commute gallery 2 1 2 browsing (Normal tt))
    as Hcomm.
  remember (handleSubmit gallery 1 browsing) as r eqn:Hr.
  vm_compute in Hr. subst r.
  destruct (Hcomm _ (conj eq_refl eq_refl) eq_refl) as [w2 [Hrun Hui]].
  eexists. exists w2. split; [reflexivity|]. split; assumption.
Defined.

(** X13 on the input " -5". *)
Lemma minus_sign_rejected_minus_five :
  exists w',
    handleSubmit gallery 3 (withInput " -5") = Some (Normal tt, w') /\
    network w' = [] /\
    console w'
    = [ConsoleError "Invalid input. Please enter a positive number."].
Proof.
  exact (minus_sign_rejected gallery 3 (withInput " -5") [53%N] eq_refl).
Defined.

(** X14 on the gallery: the table reports page index 1, the render shows
    the rows of page 2 from offset 12. *)
Lemma render_after_page_change_gallery :
  Table.first
    (table (render (snd (onPageChange gallery (mkEvent 12 12 (Some 1))
                           browsing))))
  = 12 /\
  Table.value
    (table (render (snd (onPageChange gallery (mkEvent 12 12 (Some 1))
                           browsing))))
  = arts 13 12 /\
  Table.totalRecords
    (table (render (snd (onPageChange gallery (mkEvent 12 12 (Some 1))
                           browsing))))
  = 36 /\
  pageSpinner (render (snd (onPageChange gallery (mkEvent 12 12 (Some 1))
                              browsing)))
  = false.
Proof.
  exact (render_after_page_change gallery 12 12 1 browsing (arts 13 12)
           (mkPagination 36 2 3) eq_refl eq_refl).
Defined.

(** X15 on a selection that holds record 1 twice: the keys are "1-0" and
    "1-1". *)
Lemma selected_list_keys_distinct_repeated :
  NoDup ["1-0"; "1-1"]%string /\
  [""; ""]%string = map title [art 1; art 1].
Proof.
  exact (selected_list_keys_distinct
           (mkWorld [] [art 1; art 1] false false 0 1 [] false [] [])
           [mkListItem "1-0" ""; mkListItem "1-1" ""] eq_refl).
Defined.
